(** * go-cron: the paged fetcher and the compare-and-sync engine

    A shallow embedding of [api/index.go] (fetchAllItemsConcurrently and its
    worker pool) and of package [repo] (sync.go: CompareAndSync,
    generateHandle, normalizeTitle; product_repository.go: the batch
    writers), followed by the properties the specification states about
    them.

    Conventions.
    - A Go [string] is modelled as the sequence of its runes (Unicode code
      points, as [for _, r := range s] yields them).  Every string the
      program handles comes out of [encoding/json] or out of a UTF-8
      database, so it is valid UTF-8 and byte equality coincides with
      equality of rune sequences.
    - A Go [int] is a 64-bit two's-complement integer, modelled as [Z] with
      the wrap-around written out where arithmetic can overflow.
    - [map[string]T] is a [gmap].
    - Goroutines are modelled by the runs they can have: a relation
      between the arguments of a function and what a run sends, fetches,
      gathers and returns, with the choices of the scheduler and of every
      [select] left open.  A [context.Context] is what the function sees
      of it: whether [ctx.Done()] is closed while the function runs. *)

From Stdlib Require Import ZArith Lia String Ascii.
From Stdlib Require Import DecimalString.
From stdpp Require Import gmap list.

Local Open Scope Z_scope.

(** ** Runes and strings *)

Abbreviation rune := Z (only parsing).
Abbreviation gostring := (list rune) (only parsing).

(** [str] reads an ASCII literal as a Go string. *)
Definition str (s : string) : gostring :=
  map (fun a => Z.of_nat (nat_of_ascii a)) (list_ascii_of_string s).

Module strconv.

(** strconv.Itoa: the decimal form of an int, as [%d] prints it. *)
Definition Itoa (i : Z) : gostring :=
  str (NilZero.string_of_int (Z.to_int i)).

End strconv.

Module unicode.

Definition MaxASCII : rune := 127.
Definition MaxLatin1 : rune := 255.

(** unicode.IsSpace: the Latin-1 cases of the Go function, then the
    White_Space range table. *)
Definition IsSpace (r : rune) : bool :=
  if r <=? MaxLatin1 then
    (r =? 9) || (r =? 10) || (r =? 11) || (r =? 12) || (r =? 13)
    || (r =? 32) || (r =? 133) || (r =? 160)
  else
    (r =? 5760) || ((8192 <=? r) && (r <=? 8202)) || (r =? 8232)
    || (r =? 8233) || (r =? 8239) || (r =? 8287) || (r =? 12288).

Section CaseTable.
(** The lower-case column of unicode.CaseRanges above Latin-1; the table
    belongs to the Go runtime and is kept abstract. *)
Variable caseRanges : rune -> rune.

(** unicode.ToLower: the ASCII fast path of the Go function, the
    Latin-1 entries of the table (U+00C0..U+00D6 and U+00D8..U+00DE
    move by 32, nothing else does), and the table above them. *)
Definition ToLower (r : rune) : rune :=
  if r <=? MaxASCII then
    (if (65 <=? r) && (r <=? 90) then r + 32 else r)
  else if r <=? MaxLatin1 then
    (if ((192 <=? r) && (r <=? 214)) || ((216 <=? r) && (r <=? 222))
     then r + 32 else r)
  else caseRanges r.
End CaseTable.

End unicode.

Module strings.

(** strings.ToLower maps unicode.ToLower over the runes. *)
Definition ToLower (caseRanges : rune -> rune) (s : gostring) : gostring :=
  map (unicode.ToLower caseRanges) s.

(** strings.ReplaceAll with one-rune [old] and [new]. *)
Definition ReplaceAll (s : gostring) (old new : rune) : gostring :=
  map (fun r => if r =? old then new else r) s.

Fixpoint TrimLeftSpace (s : gostring) : gostring :=
  match s with
  | [] => []
  | r :: s' => if unicode.IsSpace r then TrimLeftSpace s' else s
  end.

(** strings.TrimSpace: leading and trailing white space removed. *)
Definition TrimSpace (s : gostring) : gostring :=
  rev (TrimLeftSpace (rev (TrimLeftSpace s))).

(** strings.HasPrefix:
    [len(s) >= len(prefix) && s[:len(prefix)] == prefix]. *)
Definition HasPrefix (s prefix : gostring) : bool :=
  (length prefix <=? length s)%nat
  && bool_decide (take (length prefix) s = prefix).

(** strings.TrimPrefix: [s] without the prefix when it has it. *)
Definition TrimPrefix (s prefix : gostring) : gostring :=
  if HasPrefix s prefix then drop (length prefix) s else s.

End strings.

(** ** package repo: key normalisation (sync.go) *)

Section KeyNormalizer.
Variable caseRanges : rune -> rune.

(** The test of the loop in generateHandle:
    [(r >= 'a' && r <= 'z') || (r >= '0' && r <= '9') || r == '-']. *)
Definition handleRune (r : rune) : bool :=
  ((97 <=? r) && (r <=? 122)) || ((48 <=? r) && (r <=? 57)) || (r =? 45).

(** [builder.WriteRune(r)] under the test, one iteration of the loop. *)
Definition writeIfHandleRune (builder : gostring) (r : rune) : gostring :=
  if handleRune r then builder ++ [r] else builder.

Definition generateHandle (title : gostring) : gostring :=
  let handle := strings.ToLower caseRanges title in
  let handle := strings.ReplaceAll handle 32 45 in
  let handle := strings.ReplaceAll handle 95 45 in
  fold_left writeIfHandleRune handle [].

Definition normalizeTitle (title : gostring) : gostring :=
  strings.ToLower caseRanges (strings.TrimSpace title).

(** The specification's wording of DeriveHandle: lowercase; every space
    and every underscore becomes a hyphen; every character that is not a
    lowercase letter, a decimal digit or a hyphen is deleted. *)
Definition hyphenate (r : rune) : rune :=
  if (r =? 32) || (r =? 95) then 45 else r.

Definition keptBySpec (r : rune) : Prop :=
  r ∈ str "abcdefghijklmnopqrstuvwxyz" \/ r ∈ str "0123456789"
  \/ r ∈ str "-".

Definition DeriveHandle_spec (title : gostring) : gostring :=
  filter (fun r => r ∈ str "abcdefghijklmnopqrstuvwxyz"
                   \/ r ∈ str "0123456789" \/ r ∈ str "-")
         (map hyphenate (map (unicode.ToLower caseRanges) title)).

End KeyNormalizer.

(** "Café Latté" as runes (é is U+00E9). *)
Definition cafe_latte : gostring :=
  [67; 97; 102; 233; 32; 76; 97; 116; 116; 233].

(** ** Errors and results *)

(** A Go [error]: an opaque failure of a collaborator, or one of the two
    wrappers the program builds with [fmt.Errorf("...: %w", err)]. *)
Inductive error : Type :=
| errorString (msg : gostring)
| errFetchPage (skip : Z) (cause : error)
    (* "error fetching page at skip %d: %w" *)
| errFetchProducts (cause : error).
    (* "failed to fetch database products: %w" *)

(** A Go pair [(value, err)] of which exactly one is meaningful. *)
Inductive result (A : Type) : Type :=
| Ok (a : A)
| Fail (e : error).
Arguments Ok {A} a.
Arguments Fail {A} e.

(** [err.Error()], the text [%v] prints for an error. *)
Fixpoint errorText (err : error) : gostring :=
  match err with
  | errorString msg => msg
  | errFetchPage skip cause =>
      str "error fetching page at skip " ++ strconv.Itoa skip
        ++ str ": " ++ errorText cause
  | errFetchProducts cause =>
      str "failed to fetch database products: " ++ errorText cause
  end.

(** ** package models *)

(** [interface{}] as decoded by encoding/json, or built by a test: the
    dynamic types a field can carry.  Arrays and objects are never
    inspected by the program and are kept opaque. *)
Inductive Value : Type :=
| VNil
| VBool (b : bool)
| VNumber (n : Z)
| VString (s : gostring)
| VComposite.

(** [map[string]interface{}]: one external item. *)
Abbreviation RemoteRecord := (gmap gostring Value).

Record Product : Type := mkProduct
  { ID : Z; Title : gostring; Handle : gostring }.

Record SyncResult : Type := mkSyncResult
  { Created : Z; Updated : Z; Unchanged : Z; Errors : list gostring }.

(** [len(s)] of a slice, as a Go int. *)
Definition len {A : Type} (s : list A) : Z := Z.of_nat (length s).

(** ** package repo: the persistence gateway (product_repository.go) *)

(** The two anonymous struct types of the batch writers. *)
Record CreateItem : Type := mkCreate
  { cTitle : gostring; cHandle : gostring }.
Record UpdateItem : Type := mkUpdate
  { uID : Z; uTitle : gostring; uHandle : gostring }.

(** A row of table [products (id SERIAL PRIMARY KEY, title TEXT NOT NULL,
    handle TEXT)]; the handle column is nullable. *)
Record Row : Type := mkRow
  { row_id : Z; row_title : gostring; row_handle : option gostring }.

(** The table, its rows listed in the order [ORDER BY id] returns them. *)
Abbreviation Table := (list Row).

(** ProductRepositoryInterface: the methods CompareAndSync can call, over
    a repository state [R].  The batch writers return the state they leave
    behind. *)
Class ProductRepositoryInterface (R : Type) : Type :=
  { GetAllProducts : R -> result (list Product);
    CreateProductsBatch : R -> list CreateItem -> result R;
    UpdateProductsBatch : R -> list UpdateItem -> result R }.

Module ProductRepository.

(** [SELECT id, title, COALESCE(handle, '') as handle]: one scanned row. *)
Definition scan (r : Row) : Product :=
  mkProduct (row_id r) (row_title r) (default [] (row_handle r)).

Definition GetAllProducts (db : Table) : result (list Product) :=
  Ok (map scan db).

(** SERIAL: an identifier above every identifier of the table. *)
Definition nextID (db : Table) : Z :=
  1 + fold_right Z.max 0 (map row_id db).

Definition handleTaken (db : Table) (handle : gostring) : bool :=
  existsb (fun r => bool_decide (row_handle r = Some handle)) db.

(** [INSERT INTO products (title, handle) VALUES ($1, $2)
     ON CONFLICT (handle) DO NOTHING]. *)
Definition insertRow (db : Table) (p : CreateItem) : Table :=
  if handleTaken db (cHandle p) then db
  else db ++ [mkRow (nextID db) (cTitle p) (Some (cHandle p))].

(** [UPDATE products SET title = $1, handle = $2 WHERE id = $3]. *)
Definition updateRow (db : Table) (u : UpdateItem) : Table :=
  map (fun r => if row_id r =? uID u
                then mkRow (row_id r) (uTitle u) (Some (uHandle u))
                else r) db.

(** The statement loops of the two batch transactions.  A driver error
    (a lost connection, a context that is done, a statement that the
    unique index on handle rejects) rolls the transaction back and is not
    modelled: the functions describe a transaction that commits. *)
Definition CreateProductsBatch (db : Table) (products : list CreateItem)
  : result Table :=
  Ok (fold_left insertRow products db).

Definition UpdateProductsBatch (db : Table) (updates : list UpdateItem)
  : result Table :=
  Ok (fold_left updateRow updates db).

End ProductRepository.

#[export] Instance ProductRepository_impl : ProductRepositoryInterface Table :=
  {| GetAllProducts := ProductRepository.GetAllProducts;
     CreateProductsBatch := ProductRepository.CreateProductsBatch;
     UpdateProductsBatch := ProductRepository.UpdateProductsBatch |}.

(** MockProductRepository of sync_test.go: a function field left nil falls
    back to the empty answer. *)
Record MockProductRepository : Type := mkMock
  { GetAllProductsFunc : option (result (list Product)) }.

#[export] Instance MockProductRepository_impl
  : ProductRepositoryInterface MockProductRepository :=
  {| GetAllProducts m := default (Ok []) (GetAllProductsFunc m);
     CreateProductsBatch m _ := Ok m;
     UpdateProductsBatch m _ := Ok m |}.

(** ** package repo: the sync engine (sync.go) *)

Section SyncService.
Variable caseRanges : rune -> rune.

(** The state of the classification loop: [result] and the two batches. *)
Record syncState : Type := mkState
  { st_result : SyncResult;
    itemsToCreate : list CreateItem;
    itemsToUpdate : list UpdateItem }.

Definition invalidItemName : gostring :=
  str "Invalid or missing ItemName in external item".

(** [item["ItemName"].(string)]: the value and the [ok] flag. *)
Definition assertString (v : option Value) : gostring * bool :=
  match v with
  | Some (VString s) => (s, true)
  | _ => ([], false)
  end.

(** The key under which a persisted product is matched. *)
Definition productKey (p : Product) : gostring :=
  normalizeTitle caseRanges (Title p).

(** [dbProductMap[normalizedTitle] = &dbProducts[i]]: a later product
    overwrites an earlier one under the same key. *)
Definition bindProduct (m : gmap gostring Product) (p : Product)
  : gmap gostring Product :=
  <[productKey p := p]> m.

(** The loop that fills [dbProductMap]. *)
Definition buildProductMap (dbProducts : list Product)
  : gmap gostring Product :=
  fold_left bindProduct dbProducts ∅.

(** One iteration of [for _, item := range externalItems]. *)
Definition processItem (dbProductMap : gmap gostring Product)
           (st : syncState) (item : RemoteRecord) : syncState :=
  let '(itemName, ok) := assertString (item !! str "ItemName") in
  let r := st_result st in
  if negb ok || bool_decide (itemName = []) then
    mkState (mkSyncResult (Created r) (Updated r) (Unchanged r)
                          (Errors r ++ [invalidItemName]))
            (itemsToCreate st) (itemsToUpdate st)
  else
    let handle := generateHandle caseRanges itemName in
    let normalizedTitle := normalizeTitle caseRanges itemName in
    match dbProductMap !! normalizedTitle with
    | Some existingProduct =>
        if bool_decide (Title existingProduct ≠ itemName)
           || bool_decide (Handle existingProduct ≠ handle)
        then mkState r (itemsToCreate st)
               (itemsToUpdate st
                  ++ [mkUpdate (ID existingProduct) itemName handle])
        else mkState (mkSyncResult (Created r) (Updated r)
                                   (Unchanged r + 1) (Errors r))
                     (itemsToCreate st) (itemsToUpdate st)
    | None =>
        mkState r (itemsToCreate st ++ [mkCreate itemName handle])
                (itemsToUpdate st)
    end.

Definition initState : syncState :=
  mkState (mkSyncResult 0 0 0 []) [] [].

(** The classification pass over the products read from the store. *)
Definition classifyAll (dbProducts : list Product)
           (externalItems : list RemoteRecord) : syncState :=
  fold_left (processItem (buildProductMap dbProducts))
            externalItems initState.

(** The two goroutines after the loop, as the source has them: the
    calls to the batch writers are commented out; the first goroutine
    still stores [len(itemsToCreate)] in [result.Created], the second
    only logs.  Nothing is sent on [errChan]. *)
Definition finish (st : syncState) : SyncResult :=
  let r := st_result st in
  let r := if 0 <? len (itemsToCreate st)
           then mkSyncResult (len (itemsToCreate st)) (Updated r)
                             (Unchanged r) (Errors r)
           else r in
  let r := if 0 <? len (itemsToUpdate st) then r else r in
  r.

Definition CompareAndSync {R} `{ProductRepositoryInterface R} (repo : R)
           (externalItems : list RemoteRecord) : result SyncResult :=
  match GetAllProducts repo with
  | Fail err => Fail (errFetchProducts err)
  | Ok dbProducts => Ok (finish (classifyAll dbProducts externalItems))
  end.

(** The batches a pass assembles (what the batch writers would be given). *)
Definition syncBatches {R} `{ProductRepositoryInterface R} (repo : R)
           (externalItems : list RemoteRecord)
  : result (list CreateItem * list UpdateItem) :=
  match GetAllProducts repo with
  | Fail err => Fail (errFetchProducts err)
  | Ok dbProducts =>
      let st := classifyAll dbProducts externalItems in
      Ok (itemsToCreate st, itemsToUpdate st)
  end.

(** CompareAndSync together with the store it leaves.  Of the methods of
    [s.repo] the pass calls GetAllProducts alone (l.27): the calls of
    CreateProductsBatch (l.93-95) and UpdateProductsBatch (l.107-109)
    are commented out, so the store is left as it was found. *)
Definition CompareAndSyncOn {R} `{ProductRepositoryInterface R} (repo : R)
           (externalItems : list RemoteRecord) : result SyncResult * R :=
  (CompareAndSync repo externalItems, repo).

(** Two passes in a row over the same remote records, the second on the
    store the first has left: the outcomes of the first and of the
    second. *)
Definition twoPasses {R} `{ProductRepositoryInterface R} (repo : R)
           (externalItems : list RemoteRecord)
  : result SyncResult * result SyncResult :=
  let (first, repo1) := CompareAndSyncOn repo externalItems in
  (first, fst (CompareAndSyncOn repo1 externalItems)).

(** A record the loop accepts: ItemName present, a string, not empty. *)
Definition validItem (item : RemoteRecord) : bool :=
  let '(itemName, ok) := assertString (item !! str "ItemName") in
  negb (negb ok || bool_decide (itemName = [])).

Definition itemTitle (item : RemoteRecord) : gostring :=
  fst (assertString (item !! str "ItemName")).

End SyncService.

(** An external item with the single field ItemName. *)
Definition named (title : gostring) : RemoteRecord :=
  {[ str "ItemName" := VString title ]}.

(** ** package handler: the paged fetcher (api/index.go) *)

Module handler.

Definition maxInt : Z := 2 ^ 63 - 1.

(** The value a 64-bit [int] holds after an arithmetic result [z]. *)
Definition wrapInt (z : Z) : Z := (z + 2 ^ 63) mod 2 ^ 64 - 2 ^ 63.

Record PageJob : Type := mkPageJob { Skip : Z; Top : Z }.

(** PageResult; its [Skip] field is [ResultSkip] here. *)
Record PageResult : Type := mkPageResult
  { Items : list RemoteRecord; ResultSkip : Z; Err : option error }.

(** [make(chan T, size)] for an element type of [elemSize] bytes: the
    runtime panics (makechan: size out of range) when [size] is negative
    or the buffer would not fit below [maxAlloc]; otherwise the channel is
    made.  [maxAlloc] and [hchanSize] are those of a 64-bit platform with
    48 address bits (a header of up to 112 bytes gives the same bound for
    the channels below).  Running out of memory, here as at every other
    allocation of the program, is outside the model. *)
Definition maxAlloc : Z := 2 ^ 48.

Definition hchanSize : Z := 96.

Definition makechan (elemSize size : Z) : bool :=
  (0 <=? size) && (elemSize * size <=? maxAlloc - hchanSize).

(** [numWorkers*2], the capacity asked for both channels (l.134-135). *)
Definition chanCap (numWorkers : Z) : Z := wrapInt (numWorkers * 2).

(** [jobs := make(chan PageJob, numWorkers*2)] and
    [results := make(chan PageResult, numWorkers*2)]: a PageJob is two
    ints (16 bytes), a PageResult a slice, an int and an interface
    (48 bytes). *)
Definition channelsMade (numWorkers : Z) : bool :=
  makechan 16 (chanCap numWorkers) && makechan 48 (chanCap numWorkers).

(** The sender goroutine (l.148-158),
    [for skip := 0; skip < totalCount; skip += pageSize], from the current
    [skip] on: the jobs it puts on the channel.  Each iteration is a
    [select] between the send and [<-ctx.Done()]; [stop = Some n] has the
    sender put [n] more jobs on the channel and leave at the next
    iteration ([close(jobs); return]), [stop = None] has every send go
    through.  The result is [None] when [fuel] iterations reach neither
    the end of the loop nor the stop. *)
Fixpoint sendJobs (fuel : nat) (stop : option nat)
         (skip totalCount pageSize : Z) : option (list PageJob) :=
  match fuel with
  | O => None
  | S fuel' =>
      if skip <? totalCount then
        let send stop' :=
          match sendJobs fuel' stop' (wrapInt (skip + pageSize))
                         totalCount pageSize with
          | Some jobs => Some (mkPageJob skip pageSize :: jobs)
          | None => None
          end in
        match stop with
        | Some O => Some []
        | Some (S n) => send (Some n)
        | None => send None
        end
      else Some []
  end.

(** The offsets the specification lists: [k * pageSize] for
    [k < ceil(totalCount / pageSize)]. *)
Definition pageCount (totalCount pageSize : Z) : Z :=
  (totalCount + pageSize - 1) / pageSize.

Definition pageOffsets (totalCount pageSize : Z) : list Z :=
  map (fun k => Z.of_nat k * pageSize)
      (seq 0 (Z.to_nat (pageCount totalCount pageSize))).

(** [ctx], as far as the function observes it: whether [ctx.Done()] is
    closed at some moment of the call (deadline passed, client gone). *)
Inductive Ctx : Type := ctxLive | ctxDone.

(** The [select] at which a worker finds [ctx.Done()] closed: the one
    before the fetch (l.196) or the one sending the result (l.216). *)
Inductive Leave : Type := atCheck | atSend.

(** [shares] deals [xs] out: every element of [xs] goes to exactly one of
    the lists, and each list keeps the order of [xs].  This is how the
    jobs received from the channel are split among the workers. *)
Inductive interleaved {A : Type} : list (list A) -> list A -> Prop :=
| interleaved_nil shares :
    Forall (fun share => share = []) shares ->
    interleaved shares []
| interleaved_cons (i : nat) x share shares xs :
    shares !! i = Some (x :: share) ->
    interleaved (<[i := share]> shares) xs ->
    interleaved shares (x :: xs).

Section Fetcher.
(** fetchItemsPage(config, sessionID, top, skip): one round trip to
    the remote service, which answers with a page or fails. *)
Variable fetchItemsPage : Z -> Z -> result (list RemoteRecord).

(** The body of the worker loop for one job. *)
Definition runJob (job : PageJob) : PageResult :=
  match fetchItemsPage (Top job) (Skip job) with
  | Ok items => mkPageResult items (Skip job) None
  | Fail err => mkPageResult [] (Skip job) (Some err)
  end.

(** worker (l.191-224), [for job := range jobs], over the jobs [mine]
    this worker receives: the results it puts on the results channel.
    [leave = Some (n, at)] has the worker find [ctx.Done()] closed at its
    job number [n] (counting from 0), at the check or at the send, and
    return; with [leave = None] it runs until the channel is closed and
    drained. *)
Fixpoint worker (leave : option (nat * Leave)) (mine : list PageJob)
  : list PageResult :=
  match mine with
  | [] => []
  | job :: rest =>
      match leave with
      | Some (O, _) => []
      | Some (S n, at_) => runJob job :: worker (Some (n, at_)) rest
      | None => runJob job :: worker None rest
      end
  end.

(** The jobs for which the worker calls fetchItemsPage. *)
Fixpoint fetchedBy (leave : option (nat * Leave)) (mine : list PageJob)
  : list PageJob :=
  match mine with
  | [] => []
  | job :: rest =>
      match leave with
      | Some (O, atCheck) => []
      | Some (O, atSend) => [job]
      | Some (S n, at_) => job :: fetchedBy (Some (n, at_)) rest
      | None => job :: fetchedBy None rest
      end
  end.

(** A worker that returns at its job number [n] has received [n + 1]
    jobs. *)
Definition receives (leave : option (nat * Leave)) (mine : list PageJob)
  : Prop :=
  match leave with
  | Some (n, _) => length mine = S n
  | None => True
  end.

(** The last loop of fetchAllItemsConcurrently, over [allResults],
    and the pair [(allItems, err)] it returns: [return nil, fmt.Errorf
    (...)] at the first result with an error, [return allItems, nil]
    at the end. *)
Fixpoint combineFrom (allItems : list RemoteRecord)
         (allResults : list PageResult)
  : list RemoteRecord * option error :=
  match allResults with
  | [] => (allItems, None)
  | r :: rest =>
      match Err r with
      | Some err => ([], Some (errFetchPage (ResultSkip r) err))
      | None => combineFrom (allItems ++ Items r) rest
      end
  end.

Definition combine (allResults : list PageResult)
  : list RemoteRecord * option error :=
  combineFrom [] allResults.

(** A run of the goroutines of fetchAllItemsConcurrently up to the
    return of [resultWg.Wait()] (l.134-176): the jobs [sent] on the
    channel, the jobs [fetched] from the remote service, and
    [allResults] as the collector gathered them.

    Without workers [wg.Wait()] returns at once: the unbuffered channel
    takes no job and nothing is gathered.  Otherwise both channels are
    made, the sender puts [sent] on the jobs channel, and the workers of
    [pool] (each with the jobs it receives and where it leaves) receive
    [taken], the first jobs sent; what is sent and not taken fits the
    buffer; a worker only ends on a closed and drained channel, so when
    one does, every job sent was taken.  While [ctx] is live no [select]
    takes [ctx.Done()].  Results arrive in an order the scheduler
    chooses. *)
Inductive gathered (ctx : Ctx) (totalCount pageSize numWorkers : Z)
  : list PageJob -> list PageJob -> list PageResult -> Prop :=
| gathered_no_worker :
    numWorkers = 0 ->
    gathered ctx totalCount pageSize numWorkers [] [] []
| gathered_workers fuel stop sent taken
                   (pool : list (list PageJob * option (nat * Leave)))
                   fetched allResults :
    1 <= numWorkers ->
    channelsMade numWorkers = true ->
    sendJobs fuel stop 0 totalCount pageSize = Some sent ->
    taken `prefix_of` sent ->
    Z.of_nat (length sent) - Z.of_nat (length taken) <= chanCap numWorkers ->
    Z.of_nat (length pool) = numWorkers ->
    interleaved (map fst pool) taken ->
    Forall (fun w => receives (snd w) (fst w)) pool ->
    ((exists w, w ∈ pool /\ snd w = None) -> taken = sent) ->
    (ctx = ctxLive -> stop = None /\ Forall (fun w => snd w = None) pool) ->
    fetched ≡ₚ concat (map (fun w => fetchedBy (snd w) (fst w)) pool) ->
    allResults ≡ₚ concat (map (fun w => worker (snd w) (fst w)) pool) ->
    gathered ctx totalCount pageSize numWorkers sent fetched allResults.

(** What the collector has gathered when all workers are done, in some
    run: [jobs] are the jobs sent. *)
Definition collected (totalCount pageSize numWorkers : Z)
           (jobs : list PageJob) (allResults : list PageResult) : Prop :=
  exists ctx fetched,
    gathered ctx totalCount pageSize numWorkers jobs fetched allResults.

(** fetchAllItemsConcurrently as a relation between its arguments and
    what it returns. *)
Definition fetchAllItemsConcurrently (totalCount pageSize numWorkers : Z)
           (ret : list RemoteRecord * option error) : Prop :=
  exists jobs allResults,
    collected totalCount pageSize numWorkers jobs allResults
    /\ ret = combine allResults.

(** The same for a call whose [ctx] is as given. *)
Definition fetchAllItemsConcurrentlyIn (ctx : Ctx)
           (totalCount pageSize numWorkers : Z)
           (ret : list RemoteRecord * option error) : Prop :=
  exists sent fetched allResults,
    gathered ctx totalCount pageSize numWorkers sent fetched allResults
    /\ ret = combine allResults.
End Fetcher.

(** The security check of Handler: the request passes when
    [!strings.HasPrefix(authHeader, "Bearer ") ||
     strings.TrimPrefix(authHeader, "Bearer ") != config.Auth.CRONSecret]
    is false. *)
Definition authorized (authHeader CRONSecret : gostring) : bool :=
  negb (negb (strings.HasPrefix authHeader (str "Bearer "))
        || bool_decide
             (strings.TrimPrefix authHeader (str "Bearer ") <> CRONSecret)).

(** The remote service as Handler uses it: login(config),
    getItemCount(config, sessionID), fetchItemsPage(config, sessionID,
    top, skip) and logout(baseURL, sessionID). *)
Record ExternalAPI : Type := mkExternalAPI
  { login : result gostring;
    getItemCount : gostring -> result Z;
    fetchItemsPage : gostring -> Z -> Z -> result (list RemoteRecord);
    logout : gostring -> option error }.

(** What Handler writes: [http.Error(w, msg, code)], or status 200 with
    the JSON object of message, totalItems, itemsFetched and syncResult
    (its duration field is left out). *)
Inductive Response : Type :=
| httpError (msg : gostring) (code : Z)
| jsonOK (message : gostring) (totalItems itemsFetched : Z)
         (syncResult : SyncResult).

Definition statusCode (resp : Response) : Z :=
  match resp with
  | httpError _ code => code
  | jsonOK _ _ _ _ => 200
  end.

(** The calls Handler makes to its collaborators. *)
Inductive Call : Type :=
| callLogin
| callGetItemCount (sessionID : gostring)
| callFetchItemsPage (sessionID : gostring) (top skip : Z)
| callGetAllProducts
| callLogout (sessionID : gostring).

(** The page fetches of a run, one for each job fetched. *)
Definition pageCalls (sessionID : gostring) (fetched : list PageJob)
  : list Call :=
  map (fun job => callFetchItemsPage sessionID (Top job) (Skip job)) fetched.

(** Handler, for a request carrying [authHeader] and whose context
    (the request's, under the 5-minute deadline of l.47) is [ctx]: the
    response it writes and the calls it makes, by the path taken.  The
    deferred logout runs last on every path after a successful login; its
    error is only logged.  Page size 20 and 2 workers are the constants of
    the source.  The read of the store gives what the repository gives. *)
Inductive HandlerIn {R} `{ProductRepositoryInterface R}
          (ctx : Ctx)
          (caseRanges : rune -> rune) (CRONSecret : gostring)
          (api : ExternalAPI) (repo : R) (authHeader : gostring)
  : Response -> list Call -> Prop :=
| Handler_unauthorized :
    authorized authHeader CRONSecret = false ->
    HandlerIn ctx caseRanges CRONSecret api repo authHeader
              (httpError (str "Unauthorized") 401) []
| Handler_login_failed err :
    authorized authHeader CRONSecret = true ->
    login api = Fail err ->
    HandlerIn ctx caseRanges CRONSecret api repo authHeader
              (httpError (str "Login failed: " ++ errorText err) 500)
              [callLogin]
| Handler_count_failed sessionID err :
    authorized authHeader CRONSecret = true ->
    login api = Ok sessionID ->
    getItemCount api sessionID = Fail err ->
    HandlerIn ctx caseRanges CRONSecret api repo authHeader
              (httpError (str "Failed to get item count: " ++ errorText err)
                         500)
              [callLogin; callGetItemCount sessionID; callLogout sessionID]
| Handler_fetch_failed sessionID count sent fetched allResults allItems err :
    authorized authHeader CRONSecret = true ->
    login api = Ok sessionID ->
    getItemCount api sessionID = Ok count ->
    gathered (fetchItemsPage api sessionID) ctx count 20 2
             sent fetched allResults ->
    combine allResults = (allItems, Some err) ->
    HandlerIn ctx caseRanges CRONSecret api repo authHeader
              (httpError (str "Failed to fetch items: " ++ errorText err) 500)
              ([callLogin; callGetItemCount sessionID]
                 ++ pageCalls sessionID fetched
                 ++ [callLogout sessionID])
| Handler_sync_failed sessionID count sent fetched allResults allItems err :
    authorized authHeader CRONSecret = true ->
    login api = Ok sessionID ->
    getItemCount api sessionID = Ok count ->
    gathered (fetchItemsPage api sessionID) ctx count 20 2
             sent fetched allResults ->
    combine allResults = (allItems, None) ->
    CompareAndSync caseRanges repo allItems = Fail err ->
    HandlerIn ctx caseRanges CRONSecret api repo authHeader
              (httpError (str "Sync failed: " ++ errorText err) 500)
              ([callLogin; callGetItemCount sessionID]
                 ++ pageCalls sessionID fetched
                 ++ [callGetAllProducts; callLogout sessionID])
| Handler_ok sessionID count sent fetched allResults allItems syncResult :
    authorized authHeader CRONSecret = true ->
    login api = Ok sessionID ->
    getItemCount api sessionID = Ok count ->
    gathered (fetchItemsPage api sessionID) ctx count 20 2
             sent fetched allResults ->
    combine allResults = (allItems, None) ->
    CompareAndSync caseRanges repo allItems = Ok syncResult ->
    HandlerIn ctx caseRanges CRONSecret api repo authHeader
              (jsonOK (str "Successfully synchronized data from external API")
                      count (len allItems) syncResult)
              ([callLogin; callGetItemCount sessionID]
                 ++ pageCalls sessionID fetched
                 ++ [callGetAllProducts; callLogout sessionID]).

(** Handler for a request whose context is not told. *)
Definition Handler {R} `{ProductRepositoryInterface R}
           (caseRanges : rune -> rune) (CRONSecret : gostring)
           (api : ExternalAPI) (repo : R) (authHeader : gostring)
           (resp : Response) (calls : list Call) : Prop :=
  exists ctx,
    HandlerIn ctx caseRanges CRONSecret api repo authHeader resp calls.

End handler.

(** ** Auxiliary notions used to state the properties *)

(** The loop state reached from [st] when the loop goes on to add what
    [d] holds: batches and errors are appended, tallies added. *)
Definition appendState (st d : syncState) : syncState :=
  let r := st_result st in
  let s := st_result d in
  mkState (mkSyncResult (Created r) (Updated r)
                        (Unchanged r + Unchanged s) (Errors r ++ Errors s))
          (itemsToCreate st ++ itemsToCreate d)
          (itemsToUpdate st ++ itemsToUpdate d).

(** The number of records of the input that the loop accepts. *)
Definition validCount (externalItems : list RemoteRecord) : Z :=
  len (List.filter validItem externalItems).

(** The display-name field is absent, is not a string, or is the empty
    string. *)
Definition invalidName (item : RemoteRecord) : Prop :=
  item !! str "ItemName" = None
  \/ (exists v, item !! str "ItemName" = Some v /\ forall s, v <> VString s)
  \/ item !! str "ItemName" = Some (VString []).

(** A case table with no entry above Latin-1, for examples in ASCII. *)
Definition noCaseRanges : rune -> rune := fun r => r.

(** ** Sample inputs *)

(** A remote service whose page at offset 20 fails. *)
Definition flakyPage : Z -> Z -> result (list RemoteRecord) :=
  fun top skip =>
    if skip =? 20 then Fail (errorString (str "fetch failed with status 500"))
    else Ok [named (str "Item")].

(** The results of three pages, the one at offset 20 arriving first. *)
Definition flakyResults : list handler.PageResult :=
  map (handler.runJob flakyPage)
      [handler.mkPageJob 20 20; handler.mkPageJob 0 20;
       handler.mkPageJob 40 20].

(** The store of Test_SyncService_CompareAndSync_UpdateExisting, first row. *)
Definition storeOldHandle : Table :=
  [mkRow 1 (str "Product A") (Some (str "old-handle-a"))].

Definition remoteAB : list RemoteRecord :=
  [named (str "Product A"); named (str "Product B")].

(** The create batch of a pass over the titles "A B" and "A_B": two
    normalized titles, one handle. *)
Definition createsCollide : list CreateItem :=
  [mkCreate (str "A B") (str "a-b"); mkCreate (str "A_B") (str "a-b")].

Definition tableCollide : Table :=
  [mkRow 1 (str "A B") (Some (str "a-b"))].


(** ** Further notions used to state properties of the pass *)

(** An accepted record whose normalized title no persisted product has. *)
Definition isNew (caseRanges : rune -> rune) (db : list Product)
           (item : RemoteRecord) : bool :=
  validItem item
  && forallb (fun p => negb (bool_decide
                (productKey caseRanges p
                 = normalizeTitle caseRanges (itemTitle item)))) db.

(** The create entry of a record. *)
Definition createOf (caseRanges : rune -> rune) (item : RemoteRecord)
  : CreateItem :=
  mkCreate (itemTitle item) (generateHandle caseRanges (itemTitle item)).

(** Two loop states that differ at most in the order of their batches. *)
Definition sameUpToOrder (s s' : syncState) : Prop :=
  st_result s = st_result s'
  /\ itemsToCreate s ≡ₚ itemsToCreate s'
  /\ itemsToUpdate s ≡ₚ itemsToUpdate s'.

(** ** A remote service for the sample runs of Handler *)

(** A service that logs in, counts [count] records and serves [page]. *)
Definition serviceOf (count : Z)
           (page : Z -> Z -> result (list RemoteRecord))
  : handler.ExternalAPI :=
  handler.mkExternalAPI (Ok (str "session-1")) (fun _ => Ok count)
                        (fun _ => page) (fun _ => None).

(** Two records on one page. *)
Definition serviceAB : handler.ExternalAPI :=
  serviceOf 2 (fun _ _ => Ok remoteAB).

(** Sixty records on three pages, the page at offset 20 failing. *)
Definition serviceFlaky : handler.ExternalAPI := serviceOf 60 flakyPage.

(** No record at all. *)
Definition serviceEmpty : handler.ExternalAPI :=
  serviceOf 0 (fun _ _ => Ok []).

(** The calls of a run that fetches the three pages of [flakyResults]. *)
Definition callsFlaky : list handler.Call :=
  [handler.callLogin; handler.callGetItemCount (str "session-1");
   handler.callFetchItemsPage (str "session-1") 20 20;
   handler.callFetchItemsPage (str "session-1") 20 0;
   handler.callFetchItemsPage (str "session-1") 20 40;
   handler.callLogout (str "session-1")].

(** The calls of a run that fetches one page and reads the store. *)
Definition callsAB : list handler.Call :=
  [handler.callLogin; handler.callGetItemCount (str "session-1");
   handler.callFetchItemsPage (str "session-1") 20 0;
   handler.callGetAllProducts;
   handler.callLogout (str "session-1")].

(** * Properties *)

(** ** The key normalizer *)

Section KeyNormalizerFacts.
Variable caseRanges : rune -> rune.

Lemma handleRune_spec (r : rune) :
  handleRune r = true <-> (97 <= r <= 122) \/ (48 <= r <= 57) \/ r = 45.
Proof. unfold handleRune. lia. Qed.

Lemma builder_loop (s builder : gostring) :
  fold_left writeIfHandleRune s builder
  = builder ++ filter (fun r => Is_true (handleRune r)) s.
Proof.
  revert builder. induction s as [|r s IH]; intros builder.
  - by rewrite filter_nil, app_nil_r.
  - cbn [fold_left]. rewrite IH. unfold writeIfHandleRune.
    destruct (handleRune r) eqn:Hr.
    + rewrite filter_cons_True by (cbn; by rewrite Hr).
      by rewrite <- app_assoc.
    + rewrite filter_cons_False by (cbn; rewrite Hr; tauto). done.
Qed.

Lemma replace_twice (s : gostring) :
  strings.ReplaceAll (strings.ReplaceAll s 32 45) 95 45 = map hyphenate s.
Proof.
  unfold strings.ReplaceAll. rewrite map_map. apply map_ext.
  intros r. unfold hyphenate.
  destruct (r =? 32) eqn:H32; simpl; [done|].
  by destruct (r =? 95).
Qed.

Lemma keptBySpec_handleRune (r : rune) :
  keptBySpec r <-> Is_true (handleRune r).
Proof.
  rewrite Is_true_true, handleRune_spec. unfold keptBySpec.
  change (str "abcdefghijklmnopqrstuvwxyz") with (seqZ 97 26).
  change (str "0123456789") with (seqZ 48 10).
  change (str "-") with [45].
  rewrite !elem_of_seqZ, list_elem_of_singleton. lia.
Qed.

Lemma generateHandle_filter (title : gostring) :
  generateHandle caseRanges title = DeriveHandle_spec caseRanges title.
Proof.
  unfold generateHandle, DeriveHandle_spec, strings.ToLower.
  rewrite builder_loop, replace_twice. cbn [app].
  apply list_filter_iff. intros r. symmetry. apply keptBySpec_handleRune.
Qed.

(** Titles with the same lowercased form have the same handle. *)
Lemma generateHandle_lower (t1 t2 : gostring) :
  strings.ToLower caseRanges t1 = strings.ToLower caseRanges t2 ->
  generateHandle caseRanges t1 = generateHandle caseRanges t2.
Proof. unfold generateHandle. by intros ->. Qed.

(** The tables of Test_generateHandle and Test_normalizeTitle. *)
Lemma Test_generateHandle :
  generateHandle caseRanges (str "Simple Product") = str "simple-product"
  /\ generateHandle caseRanges (str "Product With CAPS")
     = str "product-with-caps"
  /\ generateHandle caseRanges (str "Product_With_Underscores")
     = str "product-with-underscores"
  /\ generateHandle caseRanges (str "Product   Multiple   Spaces")
     = str "product---multiple---spaces"
  /\ generateHandle caseRanges (str "Product@#$%Special*&Chars")
     = str "productspecialchars"
  /\ generateHandle caseRanges (str "123 Numeric Product 456")
     = str "123-numeric-product-456".
Proof. repeat split. Qed.

Lemma Test_normalizeTitle :
  normalizeTitle caseRanges (str "Simple Title") = str "simple title"
  /\ normalizeTitle caseRanges (str "  Title With Spaces  ")
     = str "title with spaces"
  /\ normalizeTitle caseRanges (str "UPPERCASE TITLE") = str "uppercase title"
  /\ normalizeTitle caseRanges (str "MixedCase Title") = str "mixedcase title"
  /\ normalizeTitle caseRanges (str "   ") = [].
Proof. repeat split. Qed.

(** C8. generateHandle is the specification's DeriveHandle (lowercase,
    spaces and underscores to hyphens one for one, everything but
    lowercase ASCII letters, digits and hyphens deleted); hence a handle
    holds only such characters, and "Café Latté" gives "caf-latt". *)
Theorem C8_generateHandle_refines_spec (title : gostring) :
  generateHandle caseRanges title = DeriveHandle_spec caseRanges title
  /\ Forall keptBySpec (generateHandle caseRanges title)
  /\ generateHandle caseRanges cafe_latte = str "caf-latt".
Proof.
  split; [apply generateHandle_filter|]. split; [|reflexivity].
  rewrite generateHandle_filter. unfold DeriveHandle_spec.
  apply list.Forall_forall. intros r Hr.
  by apply list_elem_of_filter in Hr as [Hr _].
Qed.

End KeyNormalizerFacts.

(** ** The classification loop *)

Section ClassificationFacts.
Variable caseRanges : rune -> rune.

Lemma appendState_init_r (st : syncState) : appendState st initState = st.
Proof.
  destruct st as [[c u n e] cs us]. unfold appendState; simpl.
  by rewrite Z.add_0_r, !app_nil_r.
Qed.

Lemma appendState_init_l (d : syncState) :
  Created (st_result d) = 0 -> Updated (st_result d) = 0 ->
  appendState initState d = d.
Proof.
  destruct d as [[c u n e] cs us]. unfold appendState; simpl.
  by intros -> ->.
Qed.

Lemma processItem_appendState (m : gmap gostring Product) (st d : syncState) (item : RemoteRecord) :
  processItem caseRanges m (appendState st d) item
  = appendState st (processItem caseRanges m d item).
Proof.
  unfold processItem.
  destruct (assertString (item !! str "ItemName")) as [itemName ok].
  destruct (negb ok || bool_decide (itemName = [])).
  { unfold appendState; simpl. by rewrite app_assoc. }
  destruct (m !! normalizeTitle caseRanges itemName) as [p|].
  - destruct (bool_decide (Title p ≠ itemName)
              || bool_decide (Handle p ≠ generateHandle caseRanges itemName)).
    + unfold appendState; simpl. by rewrite app_assoc.
    + unfold appendState; simpl. by rewrite Z.add_assoc.
  - unfold appendState; simpl. by rewrite app_assoc.
Qed.

Lemma loop_appendState (m : gmap gostring Product) (items : list RemoteRecord) (st d : syncState) :
  fold_left (processItem caseRanges m) items (appendState st d)
  = appendState st (fold_left (processItem caseRanges m) items d).
Proof.
  revert d. induction items as [|item items IH]; intros d; [done|].
  cbn [fold_left]. by rewrite processItem_appendState, IH.
Qed.

(** The loop treats every record on its own: the pass over [l1 ++ l2]
    is the pass over [l1] followed by what the pass over [l2] adds. *)
Lemma classifyAll_app (db : list Product) (l1 l2 : list RemoteRecord) :
  classifyAll caseRanges db (l1 ++ l2)
  = appendState (classifyAll caseRanges db l1) (classifyAll caseRanges db l2).
Proof.
  unfold classifyAll. rewrite fold_left_app.
  rewrite <- (appendState_init_r (fold_left _ l1 _)) at 1.
  apply loop_appendState.
Qed.

Lemma classifyAll_cons (db : list Product) (item : RemoteRecord) (l : list RemoteRecord) :
  classifyAll caseRanges db (item :: l)
  = appendState (classifyAll caseRanges db [item]) (classifyAll caseRanges db l).
Proof. apply (classifyAll_app db [item] l). Qed.

(** The loop never writes the Created and Updated tallies. *)
Lemma classifyAll_counts (db : list Product) (items : list RemoteRecord) :
  Created (st_result (classifyAll caseRanges db items)) = 0
  /\ Updated (st_result (classifyAll caseRanges db items)) = 0.
Proof.
  induction items as [|item items IH] using rev_ind; [done|].
  rewrite classifyAll_app. unfold appendState; simpl. exact IH.
Qed.

Lemma invalidName_validItem (item : RemoteRecord) :
  invalidName item <-> validItem item = false.
Proof.
  unfold invalidName, validItem, assertString.
  destruct (item !! str "ItemName") as [[| | |s|]|] eqn:E; simpl;
    try (split; [done|intros _]).
  - right; left. eexists; split; [done|]. done.
  - right; left. eexists; split; [done|]. done.
  - right; left. eexists; split; [done|]. done.
  - rewrite negb_false_iff, bool_decide_eq_true. split.
    + intros [H|[(v & Hv & Hns)|H]]; [done| |congruence].
      inversion Hv; subst. by destruct (Hns s).
    + intros ->. by right; right.
  - right; left. eexists; split; [done|]. done.
  - by left.
Qed.

(** What one accepted record adds, by the three cases of the lookup. *)
Lemma classify_valid (db : list Product) (item : RemoteRecord) :
  validItem item = true ->
  let t := itemTitle item in
  let h := generateHandle caseRanges t in
  classifyAll caseRanges db [item]
  = match buildProductMap caseRanges db !! normalizeTitle caseRanges t with
    | None => mkState (mkSyncResult 0 0 0 []) [mkCreate t h] []
    | Some p =>
        if bool_decide (Title p ≠ t) || bool_decide (Handle p ≠ h)
        then mkState (mkSyncResult 0 0 0 []) [] [mkUpdate (ID p) t h]
        else mkState (mkSyncResult 0 0 1 []) [] []
    end.
Proof.
  unfold validItem, itemTitle, classifyAll. cbn [fold_left].
  unfold processItem.
  destruct (assertString (item !! str "ItemName")) as [itemName ok]; simpl.
  intros Hv. apply negb_true_iff in Hv. rewrite Hv.
  destruct (buildProductMap caseRanges db !! _) as [p|]; [|done].
  by destruct (_ || _).
Qed.

Lemma classify_invalid (db : list Product) (item : RemoteRecord) :
  validItem item = false ->
  classifyAll caseRanges db [item]
  = mkState (mkSyncResult 0 0 0 [invalidItemName]) [] [].
Proof.
  unfold validItem, classifyAll. cbn [fold_left]. unfold processItem.
  destruct (assertString (item !! str "ItemName")) as [itemName ok]; simpl.
  intros Hv. apply negb_false_iff in Hv. by rewrite Hv.
Qed.

End ClassificationFacts.

(** ** The outcome of a pass *)

Section OutcomeFacts.
Variable caseRanges : rune -> rune.

Lemma finish_fields (st : syncState) :
  Created (st_result st) = 0 ->
  Created (finish st) = len (itemsToCreate st)
  /\ Updated (finish st) = Updated (st_result st)
  /\ Unchanged (finish st) = Unchanged (st_result st)
  /\ Errors (finish st) = Errors (st_result st).
Proof.
  intros Hc. unfold finish.
  destruct (0 <? len (itemsToUpdate st));
    (destruct (0 <? len (itemsToCreate st)) eqn:Hlen; simpl;
     [done|]; apply Z.ltb_ge in Hlen; unfold len in *;
     repeat split; try done; lia).
Qed.

Lemma validCount_cons (item : RemoteRecord) (l : list RemoteRecord) :
  validCount (item :: l)
  = (if validItem item then 1 else 0) + validCount l.
Proof.
  unfold validCount, len. simpl. destruct (validItem item); simpl; lia.
Qed.

(** The two batches and the unchanged tally partition the accepted
    records. *)
Lemma batches_partition (db : list Product) (items : list RemoteRecord) :
  let st := classifyAll caseRanges db items in
  len (itemsToCreate st) + len (itemsToUpdate st)
  + Unchanged (st_result st) = validCount items.
Proof.
  induction items as [|item items IH]; [done|].
  cbn zeta in *. rewrite classifyAll_cons, validCount_cons, <- IH.
  destruct (validItem item) eqn:Hv.
  - rewrite (classify_valid _ _ _ Hv). cbn zeta.
    destruct (buildProductMap caseRanges db !! _) as [p|].
    + destruct (_ || _); unfold appendState, len; simpl; lia.
    + unfold appendState, len; simpl; lia.
  - rewrite (classify_invalid _ _ _ Hv).
    unfold appendState, len; simpl; lia.
Qed.

(** C1 (as the code behaves). No statement of CompareAndSync assigns
    [result.Updated]: the outcome reports zero updates whatever the update
    batch holds.  With the persisted record
    {1, "Product A", "old-handle-a"} and the remote record
    {"ItemName": "Product A"} the update batch holds the one entry
    {1, "Product A", "product-a"}, and the outcome reports Updated = 0. *)
Theorem C1_updated_count_never_assigned :
  (forall (db : list Product) (items : list RemoteRecord),
      Updated (finish (classifyAll caseRanges db items)) = 0)
  /\ syncBatches caseRanges
       ([mkRow 1 (str "Product A") (Some (str "old-handle-a"))] : Table)
       [named (str "Product A")]
     = Ok ([], [mkUpdate 1 (str "Product A") (str "product-a")])
  /\ CompareAndSync caseRanges
       ([mkRow 1 (str "Product A") (Some (str "old-handle-a"))] : Table)
       [named (str "Product A")]
     = Ok (mkSyncResult 0 0 0 []).
Proof.
  split; [|split; reflexivity].
  intros db items.
  destruct (classifyAll_counts caseRanges db items) as [Hc Hu].
  destruct (finish_fields _ Hc) as (_ & -> & _). exact Hu.
Qed.

(** C4 (as the code behaves). The three tallies of the outcome sum to the
    number of accepted records less the size of the update batch, which
    is counted nowhere; with the persisted record
    {1, "Product A", "old-handle-a"} and the remote record
    {"ItemName": "Product A"} there is one accepted record and the three
    tallies sum to zero. *)
Theorem C4_tallies_miss_update_batch :
  (forall (db : list Product) (items : list RemoteRecord),
      let st := classifyAll caseRanges db items in
      Created (finish st) + Updated (finish st) + Unchanged (finish st)
      = validCount items - len (itemsToUpdate st))
  /\ validCount [named (str "Product A")] = 1
  /\ CompareAndSync caseRanges
       ([mkRow 1 (str "Product A") (Some (str "old-handle-a"))] : Table)
       [named (str "Product A")]
     = Ok (mkSyncResult 0 0 0 []).
Proof.
  split; [|split; reflexivity].
  intros db items st.
  destruct (classifyAll_counts caseRanges db items) as [Hc Hu].
  destruct (finish_fields _ Hc) as (Hf1 & Hf2 & Hf3 & _).
  pose proof (batches_partition db items) as Hp. cbn zeta in Hp.
  subst st. lia.
Qed.

(** C5. A record the loop accepts whose key is not in the map built from
    the persisted records is appended to the create batch as
    {title, handle}, nothing else changing; one whose key is bound to a
    product with exactly this title and exactly the computed handle adds
    one to the unchanged tally, nothing else changing.  With an empty
    store and the remote records "Product A", "Product B" the outcome
    is Created = 2, Updated = 0, Unchanged = 0. *)
Theorem C5_classification_rules
        (db : list Product) (pre : list RemoteRecord) (item : RemoteRecord) :
  validItem item = true ->
  let t := itemTitle item in
  let h := generateHandle caseRanges t in
  let st := classifyAll caseRanges db pre in
  let st' := classifyAll caseRanges db (pre ++ [item]) in
  (buildProductMap caseRanges db !! normalizeTitle caseRanges t = None ->
   st' = mkState (st_result st)
                 (itemsToCreate st ++ [mkCreate t h]) (itemsToUpdate st))
  /\ (forall p,
         buildProductMap caseRanges db !! normalizeTitle caseRanges t
         = Some p ->
         Title p = t -> Handle p = h ->
         st' = mkState (mkSyncResult (Created (st_result st))
                                     (Updated (st_result st))
                                     (Unchanged (st_result st) + 1)
                                     (Errors (st_result st)))
                       (itemsToCreate st) (itemsToUpdate st))
  /\ CompareAndSync caseRanges ([] : Table)
       [named (str "Product A"); named (str "Product B")]
     = Ok (mkSyncResult 2 0 0 []).
Proof.
  intros Hv. cbn zeta.
  rewrite classifyAll_app, (classify_valid _ _ _ Hv). cbn zeta.
  generalize (classifyAll caseRanges db pre). intros [[c u n e] cs us].
  split; [|split; [|reflexivity]].
  - intros ->. unfold appendState; simpl.
    by rewrite Z.add_0_r, !app_nil_r.
  - intros p -> Ht Hh.
    rewrite bool_decide_eq_false_2 by (intros Hne; by apply Hne).
    rewrite bool_decide_eq_false_2 by (intros Hne; by apply Hne).
    unfold appendState; simpl. by rewrite !app_nil_r.
Qed.

(** C6. A record whose ItemName is absent, is not a string, or is the
    empty string adds one validation error and nothing else: with or
    without it the pass returns the same three tallies and assembles the
    same two batches, the records after it being classified as before.
    The emptiness test is exact: a title of one space is accepted. *)
Theorem C6_validation_skip {R} `{ProductRepositoryInterface R}
        (repo : R) (db : list Product)
        (pre post : list RemoteRecord) (item : RemoteRecord) :
  GetAllProducts repo = Ok db ->
  invalidName item ->
  (exists r r',
      CompareAndSync caseRanges repo (pre ++ item :: post) = Ok r
      /\ CompareAndSync caseRanges repo (pre ++ post) = Ok r'
      /\ Created r = Created r' /\ Updated r = Updated r'
      /\ Unchanged r = Unchanged r'
      /\ Errors r
         = Errors (st_result (classifyAll caseRanges db pre))
             ++ invalidItemName
             :: Errors (st_result (classifyAll caseRanges db post))
      /\ Errors r'
         = Errors (st_result (classifyAll caseRanges db pre))
             ++ Errors (st_result (classifyAll caseRanges db post)))
  /\ syncBatches caseRanges repo (pre ++ item :: post)
     = syncBatches caseRanges repo (pre ++ post)
  /\ validItem (named [32]) = true.
Proof.
  intros Hdb Hinv. apply invalidName_validItem in Hinv.
  pose proof (classifyAll_app caseRanges db pre (item :: post)) as Ha.
  rewrite classifyAll_cons, (classify_invalid _ _ _ Hinv) in Ha.
  pose proof (classifyAll_app caseRanges db pre post) as Hb.
  destruct (classifyAll_counts caseRanges db (pre ++ item :: post)) as [Hc1 _].
  destruct (classifyAll_counts caseRanges db (pre ++ post)) as [Hc2 _].
  destruct (finish_fields _ Hc1) as (Hf1 & Hf2 & Hf3 & Hf4).
  destruct (finish_fields _ Hc2) as (Hg1 & Hg2 & Hg3 & Hg4).
  unfold CompareAndSync, syncBatches. rewrite Hdb.
  split; [|split; [|reflexivity]].
  - eexists _, _. split; [done|]. split; [done|].
    rewrite Hf1, Hf2, Hf3, Hf4, Hg1, Hg2, Hg3, Hg4, Ha, Hb.
    unfold appendState; simpl. done.
  - rewrite Ha, Hb. unfold appendState; simpl. done.
Qed.

End OutcomeFacts.

(** ** The lookup map over the persisted records *)

Section ProductMapFacts.
Variable caseRanges : rune -> rune.

Local Abbreviation bind := (bindProduct caseRanges).

Lemma buildProductMap_snoc (db : list Product) (p : Product) :
  buildProductMap caseRanges (db ++ [p])
  = <[productKey caseRanges p := p]> (buildProductMap caseRanges db).
Proof. unfold buildProductMap. by rewrite fold_left_app. Qed.

Lemma bind_all_other (post : list Product) (m : gmap gostring Product)
      (k : gostring) :
  (forall q, q ∈ post -> productKey caseRanges q <> k) ->
  fold_left bind post m !! k = m !! k.
Proof.
  revert m. induction post as [|q post IH]; intros m Hpost; [done|].
  cbn [fold_left]. rewrite IH.
  - unfold bindProduct. apply lookup_insert_ne. apply Hpost.
    rewrite elem_of_cons. by left.
  - intros q' Hq'. apply Hpost. rewrite elem_of_cons. by right.
Qed.

Lemma bind_all_overwrites (l : list Product) (m : gmap gostring Product)
      (q p : Product) :
  p ∈ l -> productKey caseRanges p = productKey caseRanges q ->
  fold_left bind l (bind m q) = fold_left bind l m.
Proof.
  revert m. induction l as [|x l IH]; intros m Hp Hk.
  { by apply elem_of_nil in Hp. }
  cbn [fold_left].
  destruct (decide (productKey caseRanges x = productKey caseRanges q))
    as [Hx|Hx].
  - assert (bind (bind m q) x = bind m x) as ->; [|done].
    unfold bindProduct. rewrite Hx. apply insert_insert_eq.
  - apply elem_of_cons in Hp as [->|Hp]; [done|].
    assert (bind (bind m q) x = bind (bind m x) q) as ->; [|by apply IH].
    unfold bindProduct. by apply insert_insert_ne.
Qed.

(** The binding of a key is the last product carrying it. *)
Lemma buildProductMap_last (pre post : list Product) (p : Product) :
  (forall q, q ∈ post -> productKey caseRanges q <> productKey caseRanges p) ->
  buildProductMap caseRanges (pre ++ p :: post)
    !! productKey caseRanges p = Some p.
Proof.
  intros Hpost. unfold buildProductMap.
  rewrite fold_left_app. cbn [fold_left].
  rewrite bind_all_other by done. apply lookup_insert_eq.
Qed.

Lemma buildProductMap_None (db : list Product) (k : gostring) :
  buildProductMap caseRanges db !! k = None
  <-> forall q, q ∈ db -> productKey caseRanges q <> k.
Proof.
  induction db as [|p db IH] using rev_ind.
  - split; [|done]. intros _ q Hq. by apply elem_of_nil in Hq.
  - rewrite buildProductMap_snoc, lookup_insert_None, IH. split.
    + intros [Hdb Hp] q Hq. apply elem_of_app in Hq as [Hq|Hq]; [by apply Hdb|].
      apply list_elem_of_singleton in Hq as ->. done.
    + intros Hall. split.
      * intros q Hq. apply Hall. rewrite elem_of_app. by left.
      * apply Hall. rewrite elem_of_app, list_elem_of_singleton. by right.
Qed.

Lemma buildProductMap_Some (db : list Product) (k : gostring) (p : Product) :
  buildProductMap caseRanges db !! k = Some p ->
  exists pre post,
    db = pre ++ p :: post /\ productKey caseRanges p = k
    /\ forall q, q ∈ post -> productKey caseRanges q <> k.
Proof.
  induction db as [|x db IH] using rev_ind; [done|].
  rewrite buildProductMap_snoc.
  destruct (decide (productKey caseRanges x = k)) as [Hx|Hx].
  - rewrite Hx, lookup_insert_eq. intros [= ->].
    exists db, []. split; [done|]. split; [done|].
    intros q Hq. by apply elem_of_nil in Hq.
  - rewrite lookup_insert_ne by done. intros Hp.
    destruct (IH Hp) as (pre & post & -> & Hk & Hpost).
    exists pre, (post ++ [x]). split; [by rewrite <- app_assoc|].
    split; [done|]. intros q Hq.
    apply elem_of_app in Hq as [Hq|Hq]; [by apply Hpost|].
    apply list_elem_of_singleton in Hq as ->. done.
Qed.

(** An earlier product whose key a later product carries too leaves no
    trace in the map. *)
Lemma buildProductMap_shadowed (pre mid post : list Product) (q p : Product) :
  productKey caseRanges q = productKey caseRanges p ->
  buildProductMap caseRanges (pre ++ q :: mid ++ p :: post)
  = buildProductMap caseRanges (pre ++ mid ++ p :: post).
Proof.
  intros Hk. unfold buildProductMap.
  rewrite (fold_left_app _ pre), (fold_left_app _ pre). cbn [fold_left].
  apply (bind_all_overwrites (mid ++ p :: post) _ q p); [|done].
  rewrite elem_of_app, elem_of_cons. right. by left.
Qed.

(** C9. When several persisted records have the same normalized title,
    the map binds the key to the one that comes last in the list
    GetAllProducts returned; a remote record with that key is compared
    with that record alone and, when it differs, updated under its
    identifier; and an earlier record with the key has no effect on the
    pass: without it the same state is reached on every input. *)
Theorem C9_last_duplicate_wins
        (pre mid post : list Product) (q p : Product)
        (items : list RemoteRecord) (item : RemoteRecord) :
  productKey caseRanges q = productKey caseRanges p ->
  (forall x, x ∈ post -> productKey caseRanges x <> productKey caseRanges p) ->
  validItem item = true ->
  normalizeTitle caseRanges (itemTitle item) = productKey caseRanges p ->
  let db := pre ++ q :: mid ++ p :: post in
  let t := itemTitle item in
  let h := generateHandle caseRanges t in
  buildProductMap caseRanges db !! productKey caseRanges p = Some p
  /\ classifyAll caseRanges db (items ++ [item])
     = appendState (classifyAll caseRanges db items)
         (if bool_decide (Title p ≠ t) || bool_decide (Handle p ≠ h)
          then mkState (mkSyncResult 0 0 0 []) [] [mkUpdate (ID p) t h]
          else mkState (mkSyncResult 0 0 1 []) [] [])
  /\ classifyAll caseRanges db items
     = classifyAll caseRanges (pre ++ mid ++ p :: post) items.
Proof.
  intros Hk Hpost Hv Hkey db t h.
  assert (Hlast : buildProductMap caseRanges db !! productKey caseRanges p
                  = Some p).
  { subst db.
    replace (pre ++ q :: mid ++ p :: post)
      with ((pre ++ q :: mid) ++ p :: post)
      by (by rewrite <- app_assoc).
    by apply buildProductMap_last. }
  split; [exact Hlast|]. split.
  - rewrite classifyAll_app, (classify_valid _ _ _ Hv). cbn zeta.
    by rewrite Hkey, Hlast.
  - unfold classifyAll. subst db.
    by rewrite buildProductMap_shadowed.
Qed.

End ProductMapFacts.

(** ** Batch insert *)

Section InsertFacts.
Import ProductRepository.

Lemma insertRow_length (db : Table) (c : CreateItem) :
  (length (insertRow db c) <= S (length db))%nat.
Proof.
  unfold insertRow. destruct (handleTaken db (cHandle c)); [lia|].
  rewrite length_app. simpl. lia.
Qed.

Lemma insert_all_length (batch : list CreateItem) (db : Table) :
  (length (fold_left insertRow batch db) <= length db + length batch)%nat.
Proof.
  revert db. induction batch as [|c batch IH]; intros db; simpl; [lia|].
  pose proof (IH (insertRow db c)). pose proof (insertRow_length db c). lia.
Qed.

Lemma handleTaken_app (db1 db2 : Table) (h : gostring) :
  handleTaken (db1 ++ db2) h = handleTaken db1 h || handleTaken db2 h.
Proof. unfold handleTaken. apply existsb_app. Qed.

Lemma handleTaken_insertRow (db : Table) (c : CreateItem) :
  handleTaken (insertRow db c) (cHandle c) = true.
Proof.
  unfold insertRow. destruct (handleTaken db (cHandle c)) eqn:E; [done|].
  rewrite handleTaken_app, E. simpl.
  by rewrite bool_decide_eq_true_2.
Qed.

Lemma handleTaken_insertRow_mono (db : Table) (c : CreateItem) (h : gostring) :
  handleTaken db h = true -> handleTaken (insertRow db c) h = true.
Proof.
  intros Hh. unfold insertRow. destruct (handleTaken db (cHandle c)); [done|].
  by rewrite handleTaken_app, Hh.
Qed.

Lemma handleTaken_insert_all_mono (batch : list CreateItem) (db : Table)
      (h : gostring) :
  handleTaken db h = true ->
  handleTaken (fold_left insertRow batch db) h = true.
Proof.
  revert db. induction batch as [|c batch IH]; intros db Hh; [done|].
  simpl. by apply IH, handleTaken_insertRow_mono.
Qed.

(** Two entries of a batch with one handle: the second is skipped. *)
Lemma insert_all_duplicate (b1 b2 b3 : list CreateItem) (c1 c2 : CreateItem)
      (db : Table) :
  cHandle c1 = cHandle c2 ->
  (length (fold_left insertRow (b1 ++ c1 :: b2 ++ c2 :: b3) db)
   < length db + length (b1 ++ c1 :: b2 ++ c2 :: b3))%nat.
Proof.
  intros Hh. rewrite fold_left_app. cbn [fold_left].
  rewrite fold_left_app. cbn [fold_left].
  set (db1 := fold_left insertRow b1 db).
  set (db2 := fold_left insertRow b2 (insertRow db1 c1)).
  assert (Hskip : insertRow db2 c2 = db2).
  { unfold insertRow.
    replace (handleTaken db2 (cHandle c2)) with true; [done|].
    symmetry. rewrite <- Hh. subst db2.
    apply handleTaken_insert_all_mono, handleTaken_insertRow. }
  rewrite Hskip.
  pose proof (insert_all_length b3 db2).
  pose proof (insert_all_length b2 (insertRow db1 c1)).
  pose proof (insertRow_length db1 c1).
  pose proof (insert_all_length b1 db).
  fold db1 in H2. fold db2 in H0.
  rewrite !length_app. simpl. rewrite !length_app. simpl. lia.
Qed.

End InsertFacts.

Section DuplicateCreates.
Variable caseRanges : rune -> rune.

(** C10. The map is built before the loop and not touched by it, so two
    accepted remote records with one normalized title that no persisted
    record carries both go into the create batch, each at its place, and
    both are counted in Created.  Their handles are equal when the titles
    have the same lowercased form, and then CreateProductsBatch adds
    fewer rows than Created reports, on any table. *)
Theorem C10_duplicate_creates {R} `{ProductRepositoryInterface R}
        (repo : R) (db : list Product)
        (l1 l2 l3 : list RemoteRecord) (r1 r2 : RemoteRecord) :
  GetAllProducts repo = Ok db ->
  validItem r1 = true -> validItem r2 = true ->
  normalizeTitle caseRanges (itemTitle r1)
  = normalizeTitle caseRanges (itemTitle r2) ->
  buildProductMap caseRanges db !! normalizeTitle caseRanges (itemTitle r1)
  = None ->
  let c1 := mkCreate (itemTitle r1) (generateHandle caseRanges (itemTitle r1)) in
  let c2 := mkCreate (itemTitle r2) (generateHandle caseRanges (itemTitle r2)) in
  let batch :=
    itemsToCreate (classifyAll caseRanges db l1) ++ c1
      :: itemsToCreate (classifyAll caseRanges db l2) ++ c2
      :: itemsToCreate (classifyAll caseRanges db l3) in
  (exists updates,
      syncBatches caseRanges repo (l1 ++ r1 :: l2 ++ r2 :: l3)
      = Ok (batch, updates))
  /\ (exists r,
         CompareAndSync caseRanges repo (l1 ++ r1 :: l2 ++ r2 :: l3) = Ok r
         /\ Created r = len batch /\ 2 <= Created r)
  /\ (strings.ToLower caseRanges (itemTitle r1)
      = strings.ToLower caseRanges (itemTitle r2) ->
      cHandle c1 = cHandle c2)
  /\ (cHandle c1 = cHandle c2 ->
      forall tbl tbl' : Table,
        CreateProductsBatch tbl batch = Ok tbl' ->
        len tbl' < len tbl + len batch).
Proof.
  intros Hdb Hv1 Hv2 Hkey Hnone c1 c2 batch.
  assert (Hbatch : itemsToCreate
                     (classifyAll caseRanges db (l1 ++ r1 :: l2 ++ r2 :: l3))
                   = batch).
  { rewrite classifyAll_app, classifyAll_cons, classifyAll_app,
      (classifyAll_cons _ _ r2).
    rewrite (classify_valid _ _ _ Hv1), (classify_valid _ _ _ Hv2).
    cbn zeta. rewrite <- Hkey, Hnone. reflexivity. }
  split; [|split; [|split]].
  - unfold syncBatches. rewrite Hdb, Hbatch. by eexists.
  - unfold CompareAndSync. rewrite Hdb. eexists. split; [done|].
    destruct (classifyAll_counts caseRanges db
                (l1 ++ r1 :: l2 ++ r2 :: l3)) as [Hc _].
    destruct (finish_fields _ Hc) as (-> & _). rewrite Hbatch.
    split; [done|]. subst batch. unfold len.
    rewrite length_app. simpl. rewrite length_app. simpl. lia.
  - intros Hlow. simpl. by apply generateHandle_lower.
  - intros Hh tbl tbl' [= <-].
    pose proof (insert_all_duplicate
                  (itemsToCreate (classifyAll caseRanges db l1))
                  (itemsToCreate (classifyAll caseRanges db l2))
                  (itemsToCreate (classifyAll caseRanges db l3))
                  c1 c2 tbl Hh) as Hlt.
    fold batch in Hlt. unfold len. lia.
Qed.

End DuplicateCreates.

(** ** The paged fetcher *)

Section FetcherFacts.
Import handler.
Variable fetchItemsPage : Z -> Z -> result (list RemoteRecord).

Lemma wrapInt_small (z : Z) : - 2 ^ 63 <= z <= maxInt -> wrapInt z = z.
Proof.
  unfold wrapInt, maxInt. intros Hz.
  rewrite Z.mod_small by lia. lia.
Qed.

Lemma wrapInt_range (z : Z) : - 2 ^ 63 <= wrapInt z <= maxInt.
Proof.
  unfold wrapInt, maxInt.
  pose proof (Z.mod_pos_bound (z + 2 ^ 63) (2 ^ 64) ltac:(lia)). lia.
Qed.

Lemma wrapInt_mod4 (z : Z) : wrapInt z mod 4 = z mod 4.
Proof.
  unfold wrapInt.
  pose proof (Z.div_mod (z + 2 ^ 63) (2 ^ 64) ltac:(lia)) as Hdm.
  set (q := (z + 2 ^ 63) / 2 ^ 64) in *.
  replace ((z + 2 ^ 63) mod 2 ^ 64 - 2 ^ 63)
    with (z + (- q * 2 ^ 62) * 4) by lia.
  apply Z.mod_add. lia.
Qed.

(** A loop counter that is a multiple of 4 never reaches [maxInt]. *)
Lemma sendJobs_overflow (pageSize : Z) (fuel : nat) (skip : Z) :
  pageSize mod 4 = 0 -> skip mod 4 = 0 -> - 2 ^ 63 <= skip <= maxInt ->
  sendJobs fuel None skip maxInt pageSize = None.
Proof.
  intros Hp. revert skip. induction fuel as [|fuel IH]; intros skip Hs Hr.
  { done. }
  cbn [sendJobs].
  assert (Hlt : skip < maxInt).
  { assert (skip <> maxInt); [|lia].
    intros ->. vm_compute in Hs. discriminate. }
  apply Z.ltb_lt in Hlt. rewrite Hlt. rewrite IH; [done| |].
  - rewrite wrapInt_mod4, Z.add_mod, Hs, Hp by lia. done.
  - apply wrapInt_range.
Qed.

Section Pages.
Variables totalCount pageSize : Z.
Hypothesis Htotal : 0 <= totalCount.
Hypothesis Hpage : 0 < pageSize.
Hypothesis Hrep : pageSize * pageCount totalCount pageSize <= maxInt.

Local Abbreviation N := (Z.to_nat (pageCount totalCount pageSize)).

Lemma pageCount_bounds :
  0 <= pageCount totalCount pageSize
  /\ pageSize * (pageCount totalCount pageSize - 1) < totalCount
  /\ totalCount <= pageSize * pageCount totalCount pageSize.
Proof.
  unfold pageCount.
  pose proof (Z.mul_div_le (totalCount + pageSize - 1) pageSize Hpage).
  pose proof (Z.mul_succ_div_gt (totalCount + pageSize - 1) pageSize Hpage).
  pose proof (Z.div_pos (totalCount + pageSize - 1) pageSize
                        ltac:(lia) Hpage).
  lia.
Qed.

Lemma page_below (k : nat) :
  (k < N)%nat <-> Z.of_nat k * pageSize < totalCount.
Proof.
  destruct pageCount_bounds as (H0 & Hlo & Hhi). split.
  - intros Hk. nia.
  - intros Hk. apply Nat2Z.inj_lt. rewrite Z2Nat.id by done. nia.
Qed.

Lemma sendJobs_from (fuel k : nat) :
  (k <= N)%nat ->
  sendJobs fuel None (Z.of_nat k * pageSize) totalCount pageSize
  = if (N - k <? fuel)%nat
    then Some (map (fun i => mkPageJob (Z.of_nat i * pageSize) pageSize)
                   (seq k (N - k)))
    else None.
Proof.
  revert k. induction fuel as [|fuel IH]; intros k Hk; [done|].
  cbn [sendJobs].
  destruct (Z.ltb_spec (Z.of_nat k * pageSize) totalCount) as [Hlt|Hge].
  - apply page_below in Hlt.
    replace (wrapInt (Z.of_nat k * pageSize + pageSize))
      with (Z.of_nat (S k) * pageSize).
    2:{ symmetry. rewrite <- wrapInt_small; [f_equal; lia|].
        destruct pageCount_bounds as (H0 & _ & _).
        assert (Z.of_nat (S k) <= pageCount totalCount pageSize)
          by lia.
        unfold maxInt in *. nia. }
    rewrite IH by lia.
    replace (N - k)%nat with (S (N - S k)) by lia. cbn [seq map].
    replace (S (N - S k) <? S fuel)%nat with (N - S k <? fuel)%nat.
    2:{ destruct (Nat.ltb_spec (N - S k) fuel);
        destruct (Nat.ltb_spec (S (N - S k)) (S fuel)); lia || done. }
    by destruct (N - S k <? fuel)%nat.
  - assert (k = N) as ->.
    { destruct (decide (k < N)%nat) as [Hk'|Hk']; [|lia].
      apply page_below in Hk'. lia. }
    rewrite Nat.sub_diag. done.
Qed.

Lemma sendJobs_total (fuel : nat) (jobs : list PageJob) :
  sendJobs fuel None 0 totalCount pageSize = Some jobs ->
  jobs = map (fun skip => mkPageJob skip pageSize)
             (pageOffsets totalCount pageSize).
Proof.
  pose proof (sendJobs_from fuel 0 ltac:(lia)) as Hs.
  rewrite Z.mul_0_l, Nat.sub_0_r in Hs. rewrite Hs.
  destruct (N <? fuel)%nat; [|done]. intros [= <-].
  unfold pageOffsets. by rewrite map_map.
Qed.

Lemma sendJobs_enough :
  sendJobs (S N) None 0 totalCount pageSize
  = Some (map (fun skip => mkPageJob skip pageSize)
              (pageOffsets totalCount pageSize)).
Proof.
  pose proof (sendJobs_from (S N) 0 ltac:(lia)) as Hs.
  rewrite Z.mul_0_l, Nat.sub_0_r in Hs. rewrite Hs.
  replace (N <? S N)%nat with true by (symmetry; apply Nat.ltb_lt; lia).
  unfold pageOffsets. by rewrite map_map.
Qed.

Lemma pageOffsets_spec (skip : Z) :
  skip ∈ pageOffsets totalCount pageSize
  <-> 0 <= skip < totalCount /\ (pageSize | skip).
Proof.
  unfold pageOffsets. rewrite list_elem_of_In, in_map_iff. split.
  - intros (k & <- & Hk). apply in_seq in Hk.
    assert (Hk' : (k < N)%nat) by lia. apply page_below in Hk'.
    split; [nia|]. by exists (Z.of_nat k).
  - intros [[H0 Hlt] [q ->]].
    assert (0 <= q) by nia.
    exists (Z.to_nat q). rewrite Z2Nat.id by done. split; [done|].
    apply in_seq. split; [lia|]. simpl.
    apply page_below. by rewrite Z2Nat.id.
Qed.

End Pages.

Lemma runJob_skip (job : PageJob) : ResultSkip (runJob fetchItemsPage job) = Skip job.
Proof. unfold runJob. by destruct (fetchItemsPage _ _). Qed.


Lemma combineFrom_failure (allResults : list PageResult)
      (allItems : list RemoteRecord) :
  (exists r, r ∈ allResults /\ Err r <> None) ->
  exists r err,
    r ∈ allResults /\ Err r = Some err
    /\ combineFrom allItems allResults
       = ([], Some (errFetchPage (ResultSkip r) err)).
Proof.
  revert allItems. induction allResults as [|x rest IH]; intros allItems.
  { intros (r & Hr & _). by apply elem_of_nil in Hr. }
  intros (r & Hr & Herr). cbn [combineFrom].
  destruct (Err x) as [err|] eqn:Hx.
  - exists x, err. split; [rewrite elem_of_cons; by left|]. done.
  - apply elem_of_cons in Hr as [->|Hr]; [congruence|].
    destruct (IH (allItems ++ Items x)) as (r' & err & Hin & He & Hc).
    { by exists r. }
    exists r', err. split; [rewrite elem_of_cons; by right|]. done.
Qed.

(** *** The sender with a stop *)

Lemma sendJobs_more_fuel (fuel fuel' : nat) (stop : option nat)
      (skip totalCount pageSize : Z) (jobs jobs' : list PageJob) :
  sendJobs fuel stop skip totalCount pageSize = Some jobs ->
  sendJobs fuel' stop skip totalCount pageSize = Some jobs' ->
  jobs = jobs'.
Proof.
  revert fuel' stop skip jobs jobs'.
  induction fuel as [|fuel IH]; intros fuel' stop skip jobs jobs'; [done|].
  destruct fuel' as [|fuel']; [done|]. cbn [sendJobs].
  destruct (skip <? totalCount); [|congruence].
  destruct stop as [[|n]|]; [congruence| |].
  - destruct (sendJobs fuel (Some n) _ _ _) as [j|] eqn:Hj; [|done].
    destruct (sendJobs fuel' (Some n) _ _ _) as [j'|] eqn:Hj'; [|done].
    intros [= <-] [= <-]. f_equal. by eapply IH.
  - destruct (sendJobs fuel None _ _ _) as [j|] eqn:Hj; [|done].
    destruct (sendJobs fuel' None _ _ _) as [j'|] eqn:Hj'; [|done].
    intros [= <-] [= <-]. f_equal. by eapply IH.
Qed.

(** A sender that is stopped has put a first part of the jobs of the
    whole loop on the channel. *)
Lemma sendJobs_stop_prefix (fuel fuel' : nat) (stop : option nat)
      (skip totalCount pageSize : Z) (sent jobs : list PageJob) :
  sendJobs fuel stop skip totalCount pageSize = Some sent ->
  sendJobs fuel' None skip totalCount pageSize = Some jobs ->
  sent `prefix_of` jobs.
Proof.
  revert fuel' stop skip sent jobs.
  induction fuel as [|fuel IH]; intros fuel' stop skip sent jobs; [done|].
  destruct fuel' as [|fuel']; [done|]. cbn [sendJobs].
  destruct (skip <? totalCount).
  2:{ intros [= <-] _. apply prefix_nil. }
  destruct (sendJobs fuel' None _ _ _) as [j'|] eqn:Hj'; [|done].
  destruct stop as [[|n]|].
  - intros [= <-] _. apply prefix_nil.
  - destruct (sendJobs fuel (Some n) _ _ _) as [j|] eqn:Hj; [|done].
    intros [= <-] [= <-]. apply prefix_cons. by eapply IH.
  - destruct (sendJobs fuel None _ _ _) as [j|] eqn:Hj; [|done].
    intros [= <-] [= <-]. apply prefix_cons. by eapply IH.
Qed.

(** With nothing to count the loop body is never entered. *)
Lemma sendJobs_nothing (fuel : nat) (stop : option nat)
      (totalCount pageSize : Z) (sent : list PageJob) :
  totalCount <= 0 ->
  sendJobs fuel stop 0 totalCount pageSize = Some sent -> sent = [].
Proof.
  intros Htotal. destruct fuel as [|fuel]; [done|]. cbn [sendJobs].
  replace (0 <? totalCount) with false
    by (symmetry; apply Z.ltb_ge; lia).
  congruence.
Qed.

(** *** The pool of workers *)

Lemma interleaved_Permutation {A : Type} (shares : list (list A))
      (xs : list A) :
  interleaved shares xs -> concat shares ≡ₚ xs.
Proof.
  induction 1 as [shares Hnil|i x share shares xs Hi _ IH].
  - induction Hnil as [|share shares -> _ IH]; [done|]. done.
  - rewrite <- (take_drop_middle shares i (x :: share)) by done.
    rewrite insert_take_drop in IH by (by eapply lookup_lt_Some).
    rewrite concat_app in IH |- *. cbn [concat app] in IH |- *.
    rewrite <- Permutation_middle. by rewrite IH.
Qed.

Lemma interleaved_first {A : Type} (xs : list A) (rest : list (list A)) :
  Forall (fun share => share = []) rest -> interleaved (xs :: rest) xs.
Proof.
  intros Hrest. induction xs as [|x xs IH].
  - apply interleaved_nil. by constructor.
  - by apply (interleaved_cons 0 x xs).
Qed.

Lemma worker_None (mine : list PageJob) :
  worker fetchItemsPage None mine = map (runJob fetchItemsPage) mine.
Proof. induction mine as [|job rest IH]; [done|]. cbn. by rewrite IH. Qed.

Lemma fetchedBy_None (mine : list PageJob) : fetchedBy None mine = mine.
Proof. induction mine as [|job rest IH]; [done|]. cbn. by rewrite IH. Qed.

(** A worker fetches a first part of the jobs it receives and delivers
    the results of a first part of what it fetches. *)
Lemma worker_prefix (leave : option (nat * Leave)) (mine : list PageJob) :
  exists got,
    worker fetchItemsPage leave mine = map (runJob fetchItemsPage) got
    /\ got `prefix_of` fetchedBy leave mine
    /\ fetchedBy leave mine `prefix_of` mine.
Proof.
  revert leave. induction mine as [|job rest IH]; intros leave.
  { exists []. by repeat split. }
  destruct leave as [[[|n] at_]|].
  - exists []. cbn. split; [done|]. split; [apply prefix_nil|].
    destruct at_; [apply prefix_nil|].
    apply prefix_cons, prefix_nil.
  - destruct (IH (Some (n, at_))) as (got & Hw & Hg & Hf).
    exists (job :: got). cbn. rewrite Hw.
    split; [done|]. split; by apply prefix_cons.
  - destruct (IH None) as (got & Hw & Hg & Hf).
    exists (job :: got). cbn. rewrite Hw.
    split; [done|]. split; by apply prefix_cons.
Qed.

Lemma prefix_submseteq {A : Type} (l k : list A) :
  l `prefix_of` k -> l ⊆+ k.
Proof. intros [k' ->]. apply submseteq_inserts_r. done. Qed.

Lemma pool_results (pool : list (list PageJob * option (nat * Leave))) :
  exists got,
    concat (map (fun w => worker fetchItemsPage (snd w) (fst w)) pool)
    = map (runJob fetchItemsPage) got
    /\ got ⊆+ concat (map (fun w => fetchedBy (snd w) (fst w)) pool)
    /\ concat (map (fun w => fetchedBy (snd w) (fst w)) pool)
       ⊆+ concat (map fst pool).
Proof.
  induction pool as [|[mine leave] pool (got & Hw & Hg & Hf)].
  { exists []. by repeat split. }
  destruct (worker_prefix leave mine) as (got1 & Hw1 & Hg1 & Hf1).
  exists (got1 ++ got). cbn. rewrite Hw, Hw1, map_app.
  split; [done|].
  split; apply submseteq_app; auto using prefix_submseteq.
Qed.

(** What every run has: the jobs fetched are among the jobs sent, and
    the results gathered are those of some of the jobs fetched. *)
Lemma gathered_sub (ctx : Ctx) (totalCount pageSize numWorkers : Z)
      (sent fetched : list PageJob) (allResults : list PageResult) :
  gathered fetchItemsPage ctx totalCount pageSize numWorkers
           sent fetched allResults ->
  exists got,
    allResults ≡ₚ map (runJob fetchItemsPage) got
    /\ got ⊆+ fetched /\ fetched ⊆+ sent.
Proof.
  intros [Hw|fuel stop sent' taken pool fetched' rs
             Hw Hmade Hsent Htaken Hbuf Hpool Hdeal Hrecv Hdrain Hlive
             Hfetched Hrs].
  { exists []. by repeat split. }
  destruct (pool_results pool) as (got & Hgot & Hsub1 & Hsub2).
  exists got. split; [by rewrite Hrs, Hgot|].
  split; [by rewrite Hfetched|].
  rewrite Hfetched. etrans; [exact Hsub2|].
  rewrite (interleaved_Permutation _ _ Hdeal).
  by apply prefix_submseteq.
Qed.

(** A run in which no [select] takes [ctx.Done()]: the loop of the
    sender comes to its end and every job is fetched and its result
    gathered. *)
Lemma gathered_uncancelled (ctx : Ctx) (fuel : nat)
      (totalCount pageSize numWorkers : Z)
      (jobs fetched : list PageJob) (allResults : list PageResult) :
  1 <= numWorkers ->
  channelsMade numWorkers = true ->
  sendJobs fuel None 0 totalCount pageSize = Some jobs ->
  fetched ≡ₚ jobs ->
  allResults ≡ₚ map (runJob fetchItemsPage) jobs ->
  gathered fetchItemsPage ctx totalCount pageSize numWorkers
           jobs fetched allResults.
Proof.
  intros Hw Hmade Hjobs Hfetched Hrs.
  set (idle := replicate (Z.to_nat numWorkers - 1)
                         (([], None) : list PageJob * option (nat * Leave))).
  assert (Hidle : forall (B : Type)
                     (f : list PageJob * option (nat * Leave) -> list B),
             f ([], None) = [] -> concat (map f idle) = []).
  { intros B f Hf. subst idle.
    induction (Z.to_nat numWorkers - 1)%nat as [|n IH]; [done|].
    cbn. by rewrite Hf, IH. }
  apply (gathered_workers fetchItemsPage ctx totalCount pageSize numWorkers
           fuel None jobs jobs ((jobs, None) :: idle)); try done.
  - assert (0 <= chanCap numWorkers); [|lia].
    unfold channelsMade, makechan in Hmade.
    apply andb_true_iff in Hmade as [Hm _].
    apply andb_true_iff in Hm as [Hm _]. lia.
  - cbn [length]. subst idle. rewrite length_replicate. lia.
  - cbn [map fst]. apply interleaved_first.
    subst idle. rewrite list.Forall_forall. intros share Hshare.
    apply list_elem_of_fmap in Hshare as ([m l] & -> & Hin).
    by apply elem_of_replicate in Hin as [[= -> ->] _].
  - rewrite list.Forall_forall. intros [m l] Hin.
    apply elem_of_cons in Hin as [[= -> ->]|Hin]; [done|].
    subst idle. by apply elem_of_replicate in Hin as [[= -> ->] _].
  - intros _. split; [done|].
    rewrite list.Forall_forall. intros [m l] Hin.
    apply elem_of_cons in Hin as [[= -> ->]|Hin]; [done|].
    subst idle. by apply elem_of_replicate in Hin as [[= -> ->] _].
  - cbn [map concat fst snd]. rewrite fetchedBy_None.
    rewrite (Hidle _ (fun w => fetchedBy (snd w) (fst w))) by done.
    by rewrite app_nil_r.
  - cbn [map concat fst snd]. rewrite worker_None.
    rewrite (Hidle _ (fun w => worker fetchItemsPage (snd w) (fst w))) by done.
    by rewrite app_nil_r.
Qed.

Lemma pool_all_None (pool : list (list PageJob * option (nat * Leave))) :
  Forall (fun w => snd w = None) pool ->
  concat (map (fun w => worker fetchItemsPage (snd w) (fst w)) pool)
  = map (runJob fetchItemsPage) (concat (map fst pool))
  /\ concat (map (fun w => fetchedBy (snd w) (fst w)) pool)
     = concat (map fst pool).
Proof.
  induction 1 as [|[mine leave] pool Hleave _ [IH1 IH2]]; [done|].
  cbn in Hleave. subst leave. cbn [map concat fst snd].
  by rewrite worker_None, fetchedBy_None, IH1, IH2, map_app.
Qed.

(** While [ctx] is live the run is the one every reader expects: all the
    jobs of the loop are sent, fetched and gathered; or there is no
    worker and nothing happens. *)
Lemma gathered_live (totalCount pageSize numWorkers : Z)
      (sent fetched : list PageJob) (allResults : list PageResult) :
  gathered fetchItemsPage ctxLive totalCount pageSize numWorkers
           sent fetched allResults ->
  (numWorkers = 0 /\ sent = [] /\ fetched = [] /\ allResults = [])
  \/ (1 <= numWorkers /\ channelsMade numWorkers = true
      /\ (exists fuel, sendJobs fuel None 0 totalCount pageSize = Some sent)
      /\ fetched ≡ₚ sent
      /\ allResults ≡ₚ map (runJob fetchItemsPage) sent).
Proof.
  intros [Hw|fuel stop sent' taken pool fetched' rs
             Hw Hmade Hsent Htaken Hbuf Hpool Hdeal Hrecv Hdrain Hlive
             Hfetched Hrs].
  { by left. }
  right. destruct (Hlive eq_refl) as [-> Hnone].
  split; [done|]. split; [done|]. split; [by exists fuel|].
  assert (taken = sent') as ->.
  { apply Hdrain. destruct pool as [|w pool]; [cbn in Hpool; lia|].
    exists w. split; [apply list_elem_of_here|].
    by apply Forall_cons in Hnone as [? _]. }
  destruct (pool_all_None pool Hnone) as [Hr Hf].
  rewrite Hfetched, Hrs, Hr, Hf.
  by rewrite (interleaved_Permutation _ _ Hdeal).
Qed.

(** With nothing to count no job is sent, whatever [ctx] does. *)
Lemma gathered_nothing (ctx : Ctx) (totalCount pageSize numWorkers : Z)
      (sent fetched : list PageJob) (allResults : list PageResult) :
  totalCount <= 0 ->
  gathered fetchItemsPage ctx totalCount pageSize numWorkers
           sent fetched allResults ->
  sent = [] /\ fetched = [] /\ allResults = [].
Proof.
  intros Htotal Hrun.
  assert (Hsent : sent = []).
  { destruct Hrun as [|fuel stop sent' ? ? ? ? _ _ Hsent]; [done|].
    by eapply sendJobs_nothing. }
  destruct (gathered_sub _ _ _ _ _ _ _ Hrun) as (got & Hrs & Hg & Hf).
  subst sent. apply submseteq_nil_r in Hf as ->.
  apply submseteq_nil_r in Hg as ->.
  split; [done|]. split; [done|]. by apply Permutation_nil_r in Hrs.
Qed.

(** A run needs both channels: the function panics otherwise. *)
Lemma gathered_channels (ctx : Ctx) (totalCount pageSize numWorkers : Z)
      (sent fetched : list PageJob) (allResults : list PageResult) :
  gathered fetchItemsPage ctx totalCount pageSize numWorkers
           sent fetched allResults ->
  0 <= numWorkers /\ channelsMade numWorkers = true.
Proof.
  intros [->|? ? ? ? ? ? ? Hw Hmade]; [by split|]. split; [lia|done].
Qed.


End FetcherFacts.

Section FetcherClaims.
Import handler.
Variable fetchItemsPage : Z -> Z -> result (list RemoteRecord).


(** C7. For totalCount >= 0, pageSize > 0 and at least one worker, and
    provided both channels can be made for the worker count and the loop
    counter does not overflow a 64-bit int (the first multiple of pageSize
    that is not below totalCount is at most 2^63 - 1), a run exists, and
    every run in which ctx stays live sends exactly the jobs with
    offsets 0, pageSize, 2*pageSize, ... below totalCount, each with
    limit pageSize, and fetches each once; there are
    ceil(totalCount / pageSize) of them, whatever the worker count.
    A run in which ctx is done sends a first part of these jobs and
    fetches some of the jobs sent.
    For totalCount = 47 and pageSize = 20 the offsets are 0, 20, 40. *)
Theorem C7_fetch_totality (totalCount pageSize numWorkers : Z) :
  0 <= totalCount -> 0 < pageSize -> 1 <= numWorkers ->
  channelsMade numWorkers = true ->
  pageSize * pageCount totalCount pageSize <= maxInt ->
  let offsets := pageOffsets totalCount pageSize in
  let expected := map (fun skip => mkPageJob skip pageSize) offsets in
  (forall ctx, exists allResults,
      gathered fetchItemsPage ctx totalCount pageSize numWorkers
               expected expected allResults)
  /\ (forall sent fetched allResults,
         gathered fetchItemsPage ctxLive totalCount pageSize numWorkers
                  sent fetched allResults ->
         sent = expected /\ fetched ≡ₚ expected
         /\ map ResultSkip allResults ≡ₚ offsets)
  /\ (forall sent fetched allResults,
         gathered fetchItemsPage ctxDone totalCount pageSize numWorkers
                  sent fetched allResults ->
         sent `prefix_of` expected /\ fetched ⊆+ sent)
  /\ (forall skip,
         skip ∈ offsets <-> 0 <= skip < totalCount /\ (pageSize | skip))
  /\ len offsets = pageCount totalCount pageSize
  /\ pageSize * (pageCount totalCount pageSize - 1) < totalCount
     <= pageSize * pageCount totalCount pageSize
  /\ pageOffsets 47 20 = [0; 20; 40].
Proof.
  intros Htotal Hpage Hw Hmade Hrep offsets expected.
  pose proof (sendJobs_enough totalCount pageSize Htotal Hpage Hrep)
    as Hall. fold offsets expected in Hall.
  split; [|split; [|split; [|split; [|split; [|split]]]]].
  - intros ctx. exists (map (runJob fetchItemsPage) expected).
    by eapply gathered_uncancelled.
  - intros sent fetched allResults Hrun.
    destruct (gathered_live _ _ _ _ _ _ _ Hrun)
      as [(-> & _)|(_ & _ & [fuel Hsent] & Hf & Hrs)]; [lia|].
    assert (sent = expected) as ->
      by (by eapply sendJobs_more_fuel).
    split; [done|]. split; [done|]. rewrite Hrs.
    subst expected. rewrite !map_map.
    erewrite map_ext; [by rewrite map_id|].
    intros skip. by rewrite runJob_skip.
  - intros sent fetched allResults Hrun.
    destruct (gathered_sub _ _ _ _ _ _ _ _ Hrun) as (got & _ & _ & Hf).
    split; [|done].
    destruct Hrun as [->|fuel stop sent ? ? ? ? _ _ Hsent]; [lia|].
    by eapply sendJobs_stop_prefix.
  - intros skip. by apply pageOffsets_spec.
  - subst offsets. unfold pageOffsets, len.
    rewrite length_map, length_seq.
    destruct (pageCount_bounds totalCount pageSize Htotal Hpage) as (H0 & _).
    lia.
  - destruct (pageCount_bounds totalCount pageSize Htotal Hpage)
      as (_ & Hlo & Hhi). lia.
  - reflexivity.
Qed.

End FetcherClaims.

(** A run of one worker in which ctx is done after the first send: of the
    three jobs of totalCount = 47 and pageSize = 20 only the one at offset
    0 is sent, fetched and gathered. *)
Lemma cancelled_after_one_page :
  handler.gathered flakyPage handler.ctxDone 47 20 1
    [handler.mkPageJob 0 20] [handler.mkPageJob 0 20]
    [handler.runJob flakyPage (handler.mkPageJob 0 20)].
Proof.
  apply (handler.gathered_workers flakyPage handler.ctxDone 47 20 1
           2 (Some 1%nat) [handler.mkPageJob 0 20] [handler.mkPageJob 0 20]
           [([handler.mkPageJob 0 20], None)]);
    try done.
  - by apply interleaved_first.
  - by repeat constructor.
Qed.

(** No worker count whose doubling wraps below zero gets a run: the first
    [make] panics. *)
Lemma no_run_without_channels (fetchItemsPage : Z -> Z -> result (list RemoteRecord))
      (ctx : handler.Ctx) (totalCount pageSize numWorkers : Z)
      (sent fetched : list handler.PageJob)
      (allResults : list handler.PageResult) :
  handler.channelsMade numWorkers = false ->
  ~ handler.gathered fetchItemsPage ctx totalCount pageSize numWorkers
                     sent fetched allResults.
Proof.
  intros Hmade Hrun. apply gathered_channels in Hrun as [_ Hrun].
  congruence.
Qed.

(** C7, as the specification states it, fails in three ways.  Where the
    loop counter overflows: for totalCount = 2^63 - 1 and pageSize = 2^62
    the counter goes 0, 2^62, then wraps to -2^63, which is again below
    totalCount; the loop never ends, so no run with a live ctx sends
    exactly the two jobs at 0 and 2^62.  Where the channels cannot be made:
    for 2^62 workers the capacity wraps to -2^63 and there is no run at
    all.  Where ctx is done: with totalCount = 47, pageSize = 20 and one
    worker there is a run that requests the page at offset 0 only and
    returns its records without an error. *)
Lemma C7_fetch_totality_counterexample :
  (0 <= handler.maxInt /\ 0 < 2 ^ 62
   /\ handler.pageOffsets handler.maxInt (2 ^ 62) = [0; 2 ^ 62]
   /\ handler.wrapInt (2 ^ 62 + 2 ^ 62) = - 2 ^ 63
   /\ (- 2 ^ 63 <? handler.maxInt) = true
   /\ (forall fuel,
         handler.sendJobs fuel None 0 handler.maxInt (2 ^ 62) = None)
   /\ ~ (exists numWorkers fetched allResults,
            1 <= numWorkers
            /\ handler.gathered flakyPage handler.ctxLive
                 handler.maxInt (2 ^ 62) numWorkers
                 (map (fun skip => handler.mkPageJob skip (2 ^ 62))
                      (handler.pageOffsets handler.maxInt (2 ^ 62)))
                 fetched allResults))
  /\ (1 <= 2 ^ 62
      /\ handler.chanCap (2 ^ 62) = - 2 ^ 63
      /\ ~ (exists ctx sent fetched allResults,
               handler.gathered flakyPage ctx 47 20 (2 ^ 62)
                                sent fetched allResults))
  /\ (handler.pageOffsets 47 20 = [0; 20; 40]
      /\ handler.gathered flakyPage handler.ctxDone 47 20 1
           [handler.mkPageJob 0 20] [handler.mkPageJob 0 20]
           [handler.runJob flakyPage (handler.mkPageJob 0 20)]
      /\ handler.fetchAllItemsConcurrentlyIn flakyPage handler.ctxDone
           47 20 1 ([named (str "Item")], None)).
Proof.
  assert (Hloop : forall fuel,
             handler.sendJobs fuel None 0 handler.maxInt (2 ^ 62) = None).
  { intros fuel. apply sendJobs_overflow; [done|done|].
    unfold handler.maxInt. lia. }
  split; [|split].
  - split; [unfold handler.maxInt; lia|]. split; [lia|].
    split; [reflexivity|]. split; [reflexivity|]. split; [reflexivity|].
    split; [exact Hloop|].
    intros (nw & fetched & res & Hw & Hrun).
    destruct (gathered_live _ _ _ _ _ _ _ Hrun)
      as [(-> & _)|(_ & _ & [fuel Hsent] & _)]; [lia|].
    rewrite Hloop in Hsent. discriminate.
  - split; [lia|]. split; [reflexivity|].
    intros (ctx & sent & fetched & res & Hrun).
    by apply no_run_without_channels in Hrun.
  - split; [reflexivity|]. split; [exact cancelled_after_one_page|].
    exists [handler.mkPageJob 0 20], [handler.mkPageJob 0 20],
           [handler.runJob flakyPage (handler.mkPageJob 0 20)].
    split; [exact cancelled_after_one_page|reflexivity].
Qed.

(** ** What the batches hold *)

Section BatchContents.
Variable caseRanges : rune -> rune.
Variable db : list Product.

Lemma update_batch_elem (items : list RemoteRecord) (u : UpdateItem) :
  u ∈ itemsToUpdate (classifyAll caseRanges db items)
  <-> exists item p,
      item ∈ items /\ validItem item = true
      /\ buildProductMap caseRanges db
           !! normalizeTitle caseRanges (itemTitle item) = Some p
      /\ (Title p <> itemTitle item
          \/ Handle p <> generateHandle caseRanges (itemTitle item))
      /\ u = mkUpdate (ID p) (itemTitle item)
                      (generateHandle caseRanges (itemTitle item)).
Proof.
  induction items as [|x items IH].
  { split; [intros Hc; by apply elem_of_nil in Hc|].
    intros (item & p & Hin & _). by apply elem_of_nil in Hin. }
  rewrite classifyAll_cons. unfold appendState. cbn [itemsToUpdate].
  rewrite elem_of_app, IH. clear IH.
  assert (Htail : (exists item p,
             item ∈ items /\ validItem item = true
             /\ buildProductMap caseRanges db
                  !! normalizeTitle caseRanges (itemTitle item) = Some p
             /\ (Title p <> itemTitle item
                 \/ Handle p <> generateHandle caseRanges (itemTitle item))
             /\ u = mkUpdate (ID p) (itemTitle item)
                             (generateHandle caseRanges (itemTitle item)))
          -> exists item p,
             item ∈ x :: items /\ validItem item = true
             /\ buildProductMap caseRanges db
                  !! normalizeTitle caseRanges (itemTitle item) = Some p
             /\ (Title p <> itemTitle item
                 \/ Handle p <> generateHandle caseRanges (itemTitle item))
             /\ u = mkUpdate (ID p) (itemTitle item)
                             (generateHandle caseRanges (itemTitle item))).
  { intros (item & p & Hin & Hrest). exists item, p.
    split; [rewrite elem_of_cons; by right|done]. }
  destruct (validItem x) eqn:Hv.
  - rewrite (classify_valid _ _ _ Hv). cbn zeta.
    destruct (buildProductMap caseRanges db !! _) as [p|] eqn:Hm.
    + destruct (bool_decide (Title p ≠ itemTitle x)) eqn:Ht;
        [|destruct (bool_decide (Handle p ≠ generateHandle caseRanges
                                           (itemTitle x))) eqn:Hh];
        cbn [orb itemsToUpdate].
      * apply bool_decide_eq_true in Ht.
        rewrite list_elem_of_singleton. split.
        -- intros [->|Hex]; [|by apply Htail].
           exists x, p. split; [rewrite elem_of_cons; by left|].
           split; [done|]. split; [done|]. split; [by left|done].
        -- intros (item & p' & Hin & Hv' & Hm' & Hd & Hu).
           apply elem_of_cons in Hin as [->|Hin].
           ++ left. rewrite Hm in Hm'. by inversion Hm'; subst.
           ++ right. by exists item, p'.
      * apply bool_decide_eq_true in Hh.
        rewrite list_elem_of_singleton. split.
        -- intros [->|Hex]; [|by apply Htail].
           exists x, p. split; [rewrite elem_of_cons; by left|].
           split; [done|]. split; [done|]. split; [by right|done].
        -- intros (item & p' & Hin & Hv' & Hm' & Hd & Hu).
           apply elem_of_cons in Hin as [->|Hin].
           ++ left. rewrite Hm in Hm'. by inversion Hm'; subst.
           ++ right. by exists item, p'.
      * apply bool_decide_eq_false in Ht, Hh.
        split.
        -- intros [Hc|Hex]; [by apply elem_of_nil in Hc|by apply Htail].
        -- intros (item & p' & Hin & Hv' & Hm' & Hd & Hu).
           apply elem_of_cons in Hin as [->|Hin].
           ++ rewrite Hm in Hm'. inversion Hm'; subst p'.
              destruct Hd as [Hd|Hd]; [by destruct Ht|by destruct Hh].
           ++ right. by exists item, p'.
    + cbn [itemsToUpdate]. split.
      * intros [Hc|Hex]; [by apply elem_of_nil in Hc|by apply Htail].
      * intros (item & p' & Hin & Hv' & Hm' & Hd & Hu).
        apply elem_of_cons in Hin as [->|Hin]; [congruence|].
        right. by exists item, p'.
  - rewrite (classify_invalid _ _ _ Hv). cbn [itemsToUpdate]. split.
    + intros [Hc|Hex]; [by apply elem_of_nil in Hc|by apply Htail].
    + intros (item & p' & Hin & Hv' & Hrest).
      apply elem_of_cons in Hin as [->|Hin]; [congruence|].
      right. by exists item, p'.
Qed.

End BatchContents.

(** ** Identifiers and handles of a table *)

Section TableFacts.
Import ProductRepository.

Lemma nextID_above (db : Table) (r : Row) :
  r ∈ db -> row_id r < nextID db.
Proof.
  unfold nextID. induction db as [|x db IH]; intros Hr.
  { by apply elem_of_nil in Hr. }
  apply elem_of_cons in Hr as [->|Hr]; simpl; [lia|].
  specialize (IH Hr). lia.
Qed.

Lemma handleTaken_true (db : Table) (h : gostring) :
  handleTaken db h = true <-> exists r, r ∈ db /\ row_handle r = Some h.
Proof.
  unfold handleTaken. rewrite existsb_exists. split.
  - intros (r & Hin & Hr). exists r. split; [by apply list_elem_of_In|].
    by apply bool_decide_eq_true in Hr.
  - intros (r & Hin & Hr). exists r. split; [by apply list_elem_of_In|].
    by apply bool_decide_eq_true.
Qed.

End TableFacts.

(** ** A second pass *)

Section SecondPass.
Variable caseRanges : rune -> rune.

Lemma isNew_lookup (db : list Product) (item : RemoteRecord) :
  isNew caseRanges db item = true
  <-> validItem item = true
      /\ buildProductMap caseRanges db
           !! normalizeTitle caseRanges (itemTitle item) = None.
Proof.
  unfold isNew. rewrite andb_true_iff, buildProductMap_None, forallb_forall.
  split; intros [Hv Hall]; (split; [done|]).
  - intros q Hq Hk. apply list_elem_of_In, Hall in Hq.
    apply negb_true_iff, bool_decide_eq_false in Hq. by apply Hq.
  - intros q Hq. apply negb_true_iff, bool_decide_eq_false.
    by apply Hall, list_elem_of_In.
Qed.

Lemma create_batch_filter (db : list Product) (items : list RemoteRecord) :
  itemsToCreate (classifyAll caseRanges db items)
  = map (createOf caseRanges) (List.filter (isNew caseRanges db) items).
Proof.
  induction items as [|item items IH]; [done|].
  rewrite classifyAll_cons. unfold appendState. cbn [itemsToCreate].
  rewrite IH. cbn [List.filter].
  destruct (isNew caseRanges db item) eqn:Hnew.
  - apply isNew_lookup in Hnew as [Hv Hnone].
    rewrite (classify_valid _ _ _ Hv). cbn zeta. by rewrite Hnone.
  - destruct (validItem item) eqn:Hv.
    + rewrite (classify_valid _ _ _ Hv). cbn zeta.
      destruct (buildProductMap caseRanges db !! _) as [p|] eqn:Hm.
      * by destruct (_ || _).
      * assert (isNew caseRanges db item = true); [|congruence].
        by apply isNew_lookup.
    + by rewrite (classify_invalid _ _ _ Hv).
Qed.

(** C2. CompareAndSync writes nothing to the store: a second pass over
    the same remote records meets the store the first pass met and returns
    what the first returned.  Its Created is again the number of
    accepted records whose normalized title no persisted product has, so
    it is not 0 as soon as one record is new; Updated is 0 in both
    passes. *)
Theorem C2_second_pass_repeats_first {R} `{ProductRepositoryInterface R}
        (repo : R) (db : list Product) (items : list RemoteRecord) :
  GetAllProducts repo = Ok db ->
  snd (CompareAndSyncOn caseRanges repo items) = repo
  /\ exists r,
      twoPasses caseRanges repo items = (Ok r, Ok r)
      /\ Created r = len (List.filter (isNew caseRanges db) items)
      /\ Updated r = 0
      /\ ((exists item, item ∈ items /\ isNew caseRanges db item = true) ->
          0 < Created r).
Proof.
  intros Hdb. split; [done|].
  exists (finish (classifyAll caseRanges db items)).
  destruct (classifyAll_counts caseRanges db items) as [Hc Hu].
  destruct (finish_fields _ Hc) as (Hcreated & Hupdated & _).
  assert (Hlen : Created (finish (classifyAll caseRanges db items))
                 = len (List.filter (isNew caseRanges db) items)).
  { rewrite Hcreated, create_batch_filter. unfold len.
    by rewrite length_map. }
  split; [|split; [done|split; [congruence|]]].
  - unfold twoPasses, CompareAndSyncOn, CompareAndSync. cbn [fst].
    by rewrite Hdb.
  - intros (item & Hin & Hnew). rewrite Hlen. unfold len.
    assert (Hf : item ∈ List.filter (isNew caseRanges db) items).
    { apply list_elem_of_In, filter_In. split; [|done].
      by apply list_elem_of_In. }
    destruct (List.filter (isNew caseRanges db) items) as [|x l].
    + by apply elem_of_nil in Hf.
    + cbn [length]. lia.
Qed.

End SecondPass.

(** * Counterexamples and instances *)

(** "Foo" and " Foo" have one normalized title and the handles "foo" and
    "-foo", for every case table. *)
Lemma same_key_different_handles (caseRanges : rune -> rune) :
  validItem (named (str "Foo")) = true
  /\ validItem (named (str " Foo")) = true
  /\ normalizeTitle caseRanges (str "Foo")
     = normalizeTitle caseRanges (str " Foo")
  /\ buildProductMap caseRanges []
       !! normalizeTitle caseRanges (str "Foo") = None
  /\ syncBatches caseRanges ([] : Table)
       [named (str "Foo"); named (str " Foo")]
     = Ok ([mkCreate (str "Foo") (str "foo");
            mkCreate (str " Foo") (str "-foo")], [])
  /\ str "foo" <> str "-foo".
Proof. repeat split; try reflexivity. discriminate. Qed.

(** C10, as the specification states it, fails on the handles: "Foo" and
    " Foo" are accepted, have one normalized title that no persisted
    record carries, both go into the create batch, and their handles are
    "foo" and "-foo". *)
Lemma C10_same_key_different_handles :
  validItem (named (str "Foo")) = true
  /\ validItem (named (str " Foo")) = true
  /\ normalizeTitle noCaseRanges (str "Foo")
     = normalizeTitle noCaseRanges (str " Foo")
  /\ buildProductMap noCaseRanges []
       !! normalizeTitle noCaseRanges (str "Foo") = None
  /\ syncBatches noCaseRanges ([] : Table)
       [named (str "Foo"); named (str " Foo")]
     = Ok ([mkCreate (str "Foo") (str "foo");
            mkCreate (str " Foo") (str "-foo")], [])
  /\ str "foo" <> str "-foo".
Proof. exact (same_key_different_handles noCaseRanges). Qed.


Lemma C5_classification_rules_witness :
  validItem (named (str "Product A")) = true
  /\ classifyAll noCaseRanges [] ([] ++ [named (str "Product A")])
     = mkState (mkSyncResult 0 0 0 [])
               [mkCreate (str "Product A") (str "product-a")] [].
Proof.
  split; [reflexivity|].
  apply (C5_classification_rules noCaseRanges [] []
           (named (str "Product A")) eq_refl).
  reflexivity.
Defined.

Lemma C6_validation_skip_witness :
  invalidName (named [])
  /\ syncBatches noCaseRanges storeOldHandle
       ([named (str "Product A")] ++ named [] :: [named (str "Product B")])
     = syncBatches noCaseRanges storeOldHandle
         ([named (str "Product A")] ++ [named (str "Product B")]).
Proof.
  assert (H : invalidName (named [])) by (right; right; reflexivity).
  assert (Hdb : GetAllProducts storeOldHandle
                = Ok (map ProductRepository.scan storeOldHandle))
    by reflexivity.
  split; [exact H|].
  apply (C6_validation_skip noCaseRanges storeOldHandle
           (map ProductRepository.scan storeOldHandle)
           [named (str "Product A")] [named (str "Product B")] (named [])
           Hdb H).
Defined.

Lemma C7_fetch_totality_witness :
  0 <= 47 /\ 0 < 20 /\ 1 <= 2
  /\ handler.channelsMade 2 = true
  /\ 20 * handler.pageCount 47 20 <= handler.maxInt
  /\ forall sent fetched allResults,
      handler.gathered flakyPage handler.ctxLive 47 20 2
                       sent fetched allResults ->
      sent = map (fun skip => handler.mkPageJob skip 20)
                 (handler.pageOffsets 47 20)
      /\ fetched ≡ₚ map (fun skip => handler.mkPageJob skip 20)
                        (handler.pageOffsets 47 20)
      /\ map handler.ResultSkip allResults ≡ₚ handler.pageOffsets 47 20.
Proof.
  assert (H1 : 0 <= 47) by lia. assert (H2 : 0 < 20) by lia.
  assert (H3 : 1 <= 2) by lia.
  assert (Hc : handler.channelsMade 2 = true) by reflexivity.
  assert (H4 : 20 * handler.pageCount 47 20 <= handler.maxInt)
    by (vm_compute; discriminate).
  split; [exact H1|]. split; [exact H2|]. split; [exact H3|].
  split; [exact Hc|]. split; [exact H4|].
  apply (C7_fetch_totality flakyPage 47 20 2 H1 H2 H3 Hc H4).
Defined.

Lemma C9_last_duplicate_wins_witness :
  productKey noCaseRanges (mkProduct 1 (str "Foo") (str "foo"))
  = productKey noCaseRanges (mkProduct 2 (str "FOO") (str "foo"))
  /\ buildProductMap noCaseRanges
       ([] ++ mkProduct 1 (str "Foo") (str "foo")
           :: [] ++ mkProduct 2 (str "FOO") (str "foo") :: [])
       !! productKey noCaseRanges (mkProduct 2 (str "FOO") (str "foo"))
     = Some (mkProduct 2 (str "FOO") (str "foo")).
Proof.
  split; [reflexivity|].
  apply (C9_last_duplicate_wins noCaseRanges [] [] []
           (mkProduct 1 (str "Foo") (str "foo"))
           (mkProduct 2 (str "FOO") (str "foo"))
           [] (named (str "foo")) eq_refl).
  - intros x Hx. by apply elem_of_nil in Hx.
  - reflexivity.
  - reflexivity.
Defined.

Lemma C10_duplicate_creates_witness :
  normalizeTitle noCaseRanges (itemTitle (named (str "Foo")))
  = normalizeTitle noCaseRanges (itemTitle (named (str "FOO")))
  /\ exists r,
      CompareAndSync noCaseRanges ([] : Table)
        ([] ++ named (str "Foo") :: [] ++ named (str "FOO") :: [])
      = Ok r
      /\ Created r
         = len ([] ++ mkCreate (str "Foo") (str "foo")
                   :: [] ++ mkCreate (str "FOO") (str "foo") :: [])
      /\ 2 <= Created r.
Proof.
  assert (Hdb : GetAllProducts ([] : Table) = Ok []) by reflexivity.
  split; [reflexivity|].
  apply (C10_duplicate_creates noCaseRanges ([] : Table) [] [] [] []
           (named (str "Foo")) (named (str "FOO"))
           Hdb eq_refl eq_refl eq_refl eq_refl).
Defined.

Lemma C2_second_pass_repeats_first_witness :
  GetAllProducts ([] : Table) = Ok []
  /\ twoPasses noCaseRanges ([] : Table) [named (str "Product A")]
     = (Ok (mkSyncResult 1 0 0 []), Ok (mkSyncResult 1 0 0 []))
  /\ snd (CompareAndSyncOn noCaseRanges ([] : Table)
                           [named (str "Product A")])
     = []
  /\ exists r,
      twoPasses noCaseRanges ([] : Table) [named (str "Product A")]
      = (Ok r, Ok r)
      /\ Created r
         = len (List.filter (isNew noCaseRanges [])
                            [named (str "Product A")])
      /\ Updated r = 0
      /\ ((exists item,
              item ∈ [named (str "Product A")]
              /\ isNew noCaseRanges [] item = true) ->
          0 < Created r).
Proof.
  assert (Hdb : GetAllProducts ([] : Table) = Ok []) by reflexivity.
  assert (Hrun : twoPasses noCaseRanges ([] : Table)
                           [named (str "Product A")]
                 = (Ok (mkSyncResult 1 0 0 []), Ok (mkSyncResult 1 0 0 [])))
    by reflexivity.
  split; [exact Hdb|]. split; [exact Hrun|].
  exact (C2_second_pass_repeats_first
           noCaseRanges ([] : Table) [] [named (str "Product A")] Hdb).
Defined.

(** * Further properties *)

(** ** normalizeTitle and generateHandle *)

Section NormalizerExtras.
Variable caseRanges : rune -> rune.

Lemma TrimLeftSpace_spaces (ws s : gostring) :
  Forall (fun r => unicode.IsSpace r = true) ws ->
  strings.TrimLeftSpace (ws ++ s) = strings.TrimLeftSpace s.
Proof.
  induction 1 as [|r ws Hr _ IH]; [done|]. simpl. by rewrite Hr.
Qed.

Lemma TrimLeftSpace_app (s ws : gostring) :
  Forall (fun r => unicode.IsSpace r = true) ws ->
  strings.TrimLeftSpace (s ++ ws)
  = match strings.TrimLeftSpace s with
    | [] => []
    | _ => strings.TrimLeftSpace s ++ ws
    end.
Proof.
  intros Hws. induction s as [|r s IH]; simpl.
  - rewrite <- (app_nil_r ws). by rewrite TrimLeftSpace_spaces.
  - destruct (unicode.IsSpace r); [exact IH|done].
Qed.

Lemma TrimSpace_spaces (ws1 t ws2 : gostring) :
  Forall (fun r => unicode.IsSpace r = true) ws1 ->
  Forall (fun r => unicode.IsSpace r = true) ws2 ->
  strings.TrimSpace (ws1 ++ t ++ ws2) = strings.TrimSpace t.
Proof.
  intros H1 H2. unfold strings.TrimSpace.
  rewrite TrimLeftSpace_spaces, TrimLeftSpace_app by done.
  destruct (strings.TrimLeftSpace t) as [|r s] eqn:E; [done|].
  rewrite rev_app_distr, TrimLeftSpace_spaces; [done|].
  by apply Forall_rev.
Qed.

(** X1. normalizeTitle ignores white space around a title: any run of
    white-space runes before and after it leaves the key unchanged. *)
Theorem X1_normalizeTitle_ignores_outer_space (ws1 t ws2 : gostring) :
  Forall (fun r => unicode.IsSpace r = true) ws1 ->
  Forall (fun r => unicode.IsSpace r = true) ws2 ->
  normalizeTitle caseRanges (ws1 ++ t ++ ws2) = normalizeTitle caseRanges t.
Proof.
  intros H1 H2. unfold normalizeTitle. by rewrite TrimSpace_spaces.
Qed.

Section SpacePreservingTable.
(** No rune above Latin-1 is lowered to or from white space. *)
Hypothesis Hspace : forall r,
  unicode.MaxLatin1 < r -> unicode.IsSpace (caseRanges r) = unicode.IsSpace r.

Lemma IsSpace_ToLower (r : rune) :
  unicode.IsSpace (unicode.ToLower caseRanges r) = unicode.IsSpace r.
Proof.
  unfold unicode.ToLower.
  destruct (Z.leb_spec r unicode.MaxASCII) as [Ha|Ha].
  - destruct ((65 <=? r) && (r <=? 90)) eqn:E; [|done].
    unfold unicode.IsSpace, unicode.MaxLatin1, unicode.MaxASCII in *.
    apply andb_true_iff in E as [E1 E2].
    apply Z.leb_le in E1, E2.
    replace (r + 32 <=? 255) with true by (symmetry; apply Z.leb_le; lia).
    replace (r <=? 255) with true by (symmetry; apply Z.leb_le; lia).
    repeat match goal with
           | |- context [?a =? ?b] =>
               replace (a =? b) with false by (symmetry; apply Z.eqb_neq; lia)
           end.
    done.
  - destruct (Z.leb_spec r unicode.MaxLatin1) as [Hl|Hl]; [|by apply Hspace].
    destruct (_ || _) eqn:E; [|done].
    unfold unicode.IsSpace, unicode.MaxLatin1, unicode.MaxASCII in *.
    assert (192 <= r <= 222) as Hr by lia.
    replace (r + 32 <=? 255) with true by (symmetry; apply Z.leb_le; lia).
    replace (r <=? 255) with true by (symmetry; apply Z.leb_le; lia).
    repeat match goal with
           | |- context [?a =? ?b] =>
               replace (a =? b) with false by (symmetry; apply Z.eqb_neq; lia)
           end.
    done.
Qed.

Lemma TrimLeftSpace_ToLower (s : gostring) :
  strings.TrimLeftSpace (strings.ToLower caseRanges s)
  = strings.ToLower caseRanges (strings.TrimLeftSpace s).
Proof.
  induction s as [|r s IH]; [done|]. simpl.
  rewrite IsSpace_ToLower. by destruct (unicode.IsSpace r).
Qed.

Lemma TrimSpace_ToLower (s : gostring) :
  strings.TrimSpace (strings.ToLower caseRanges s)
  = strings.ToLower caseRanges (strings.TrimSpace s).
Proof.
  unfold strings.TrimSpace. rewrite TrimLeftSpace_ToLower.
  unfold strings.ToLower at 1. rewrite <- map_rev.
  change (map (unicode.ToLower caseRanges) ?l)
    with (strings.ToLower caseRanges l).
  rewrite TrimLeftSpace_ToLower. unfold strings.ToLower. by rewrite map_rev.
Qed.

(** X2. normalizeTitle is case-insensitive: titles with the same
    lowercased form have the same key, and the key is the trimmed
    lowercased form whichever of the two steps comes first. *)
Theorem X2_normalizeTitle_case_insensitive (t1 t2 : gostring) :
  strings.ToLower caseRanges t1 = strings.ToLower caseRanges t2 ->
  normalizeTitle caseRanges t1 = normalizeTitle caseRanges t2
  /\ normalizeTitle caseRanges t1
     = strings.TrimSpace (strings.ToLower caseRanges t1).
Proof.
  intros Hlow. unfold normalizeTitle.
  by rewrite <- !TrimSpace_ToLower, Hlow.
Qed.

End SpacePreservingTable.

Lemma handleRune_fixed (r : rune) :
  handleRune r = true ->
  hyphenate (unicode.ToLower caseRanges r) = r.
Proof.
  intros Hr. apply handleRune_spec in Hr.
  unfold unicode.ToLower, hyphenate, unicode.MaxASCII.
  replace (r <=? 127) with true by (symmetry; apply Z.leb_le; lia).
  replace ((65 <=? r) && (r <=? 90)) with false.
  2:{ symmetry. apply andb_false_iff.
      destruct (Z.leb_spec 65 r); destruct (Z.leb_spec r 90); auto; lia. }
  replace (r =? 32) with false by (symmetry; apply Z.eqb_neq; lia).
  replace (r =? 95) with false by (symmetry; apply Z.eqb_neq; lia).
  done.
Qed.

Lemma generateHandle_alt (title : gostring) :
  generateHandle caseRanges title
  = filter (fun r => Is_true (handleRune r))
           (map hyphenate (map (unicode.ToLower caseRanges) title)).
Proof.
  unfold generateHandle, strings.ToLower.
  by rewrite builder_loop, replace_twice.
Qed.

(** X3. A handle is its own handle: generateHandle applied to a handle
    returns it unchanged. *)
Theorem X3_generateHandle_idempotent (title : gostring) :
  generateHandle caseRanges (generateHandle caseRanges title)
  = generateHandle caseRanges title.
Proof.
  rewrite (generateHandle_alt (generateHandle caseRanges title)).
  assert (Hall : Forall (fun r => handleRune r = true)
                        (generateHandle caseRanges title)).
  { rewrite generateHandle_alt. apply list.Forall_forall. intros r Hr.
    apply list_elem_of_filter in Hr as [Hr _]. by apply Is_true_true. }
  induction Hall as [|r l Hr _ IH]; [done|].
  cbn [map]. rewrite (handleRune_fixed r Hr).
  rewrite filter_cons_True by (by apply Is_true_true). by rewrite IH.
Qed.

Lemma generateHandle_app (t1 t2 : gostring) :
  generateHandle caseRanges (t1 ++ t2)
  = generateHandle caseRanges t1 ++ generateHandle caseRanges t2.
Proof. rewrite !generateHandle_alt, !map_app. apply filter_app. Qed.

Lemma generateHandle_run (n : nat) (r : rune) :
  generateHandle caseRanges [r] = [45] ->
  generateHandle caseRanges (replicate n r) = replicate n 45.
Proof.
  intros Hr. induction n as [|n IH]; [done|].
  change (replicate (S n) r) with ([r] ++ replicate n r).
  by rewrite generateHandle_app, Hr, IH.
Qed.

(** X4. generateHandle works rune by rune: the handle of a concatenation
    is the concatenation of the handles, a handle is never longer than its
    title, and a run of n spaces or underscores gives n hyphens. *)
Theorem X4_generateHandle_concat (t1 t2 : gostring) (n : nat) :
  generateHandle caseRanges (t1 ++ t2)
  = generateHandle caseRanges t1 ++ generateHandle caseRanges t2
  /\ (length (generateHandle caseRanges t1) <= length t1)%nat
  /\ generateHandle caseRanges (replicate n 32) = replicate n 45
  /\ generateHandle caseRanges (replicate n 95) = replicate n 45.
Proof.
  split; [apply generateHandle_app|]. split; [|split].
  - rewrite generateHandle_alt.
    etrans; [apply length_filter|]. by rewrite !length_map.
  - by apply generateHandle_run.
  - by apply generateHandle_run.
Qed.

End NormalizerExtras.

(** ** The classification pass as a whole *)

Section PassExtras.
Variable caseRanges : rune -> rune.

(** X5. The create batch lists, in the order of the remote input, the
    entries {title, handle} of exactly the accepted records whose
    normalized title no persisted product has. *)
Theorem X5_create_batch_in_input_order
        (db : list Product) (items : list RemoteRecord) :
  itemsToCreate (classifyAll caseRanges db items)
  = map (createOf caseRanges) (List.filter (isNew caseRanges db) items).
Proof. apply create_batch_filter. Qed.

(** X6. Every entry of the update batch carries the identifier of a
    persisted product that has the same normalized title and differs from
    the entry in title or in handle; its title is not empty and its handle
    is the handle generated from its title. *)
Theorem X6_update_batch_entries
        (db : list Product) (items : list RemoteRecord) (u : UpdateItem) :
  u ∈ itemsToUpdate (classifyAll caseRanges db items) ->
  uTitle u <> [] /\ uHandle u = generateHandle caseRanges (uTitle u)
  /\ exists p,
      p ∈ db /\ ID p = uID u
      /\ productKey caseRanges p = normalizeTitle caseRanges (uTitle u)
      /\ (Title p <> uTitle u \/ Handle p <> uHandle u).
Proof.
  intros Hu.
  apply update_batch_elem in Hu as (item & p & Hin & Hv & Hp & Hd & ->).
  cbn [uTitle uHandle uID]. split; [|split; [done|]].
  - unfold validItem, itemTitle in *.
    destruct (assertString (item !! str "ItemName")) as [t ok]; simpl in *.
    apply negb_true_iff, orb_false_iff in Hv as [_ Hv].
    by apply bool_decide_eq_false in Hv.
  - exists p.
    apply buildProductMap_Some in Hp as (pre & post & -> & Hk & _).
    split; [rewrite elem_of_app, elem_of_cons; auto|]. done.
Qed.

Lemma unchanged_nonneg (db : list Product) (items : list RemoteRecord) :
  0 <= Unchanged (st_result (classifyAll caseRanges db items)).
Proof.
  induction items as [|item items IH]; [done|].
  rewrite classifyAll_cons. unfold appendState. cbn [st_result Unchanged].
  destruct (validItem item) eqn:Hv.
  - rewrite (classify_valid _ _ _ Hv). cbn zeta.
    destruct (buildProductMap caseRanges db !! _) as [p|]; [|simpl; lia].
    destruct (_ || _); simpl; lia.
  - rewrite (classify_invalid _ _ _ Hv). simpl. lia.
Qed.

Lemma errors_replicate (db : list Product) (items : list RemoteRecord) :
  Errors (st_result (classifyAll caseRanges db items))
  = replicate (length (List.filter (fun i => negb (validItem i)) items))
              invalidItemName.
Proof.
  induction items as [|item items IH]; [done|].
  rewrite classifyAll_cons. unfold appendState. cbn [st_result Errors].
  rewrite IH. cbn [List.filter].
  destruct (validItem item) eqn:Hv; cbn [negb].
  - rewrite (classify_valid _ _ _ Hv). cbn zeta.
    destruct (buildProductMap caseRanges db !! _) as [p|]; [|done].
    by destruct (_ || _).
  - by rewrite (classify_invalid _ _ _ Hv).
Qed.

Lemma filter_split_length {A : Type} (f : A -> bool) (l : list A) :
  (length (List.filter f l) + length (List.filter (fun x => negb (f x)) l)
   = length l)%nat.
Proof.
  induction l as [|x l IH]; [done|]. simpl.
  destruct (f x); simpl; lia.
Qed.

(** X7. Every remote record is accounted for once: when the read of the
    store succeeds, the pass returns without error, Created is the size of
    the create batch, the error list holds one message "Invalid or missing
    ItemName in external item" per rejected record and nothing else, and
    the input length is the size of the create batch plus the size of the
    update batch plus Unchanged plus the number of errors. *)
Theorem X7_every_record_accounted {R} `{ProductRepositoryInterface R}
        (repo : R) (db : list Product) (items : list RemoteRecord) :
  GetAllProducts repo = Ok db ->
  exists r creates updates,
    CompareAndSync caseRanges repo items = Ok r
    /\ syncBatches caseRanges repo items = Ok (creates, updates)
    /\ Created r = len creates
    /\ 0 <= Unchanged r
    /\ Errors r = replicate (Z.to_nat (len items - validCount items))
                            invalidItemName
    /\ len items = len creates + len updates + Unchanged r + len (Errors r).
Proof.
  intros Hdb. unfold CompareAndSync, syncBatches. rewrite Hdb.
  eexists _, _, _. split; [done|]. split; [done|].
  destruct (classifyAll_counts caseRanges db items) as [Hc _].
  destruct (finish_fields _ Hc) as (-> & _ & -> & ->).
  pose proof (batches_partition caseRanges db items) as Hp. cbn zeta in Hp.
  pose proof (filter_split_length validItem items) as Hlen.
  assert (Hn : Z.to_nat (len items - validCount items)
               = length (List.filter (fun i => negb (validItem i)) items)).
  { unfold validCount, len. lia. }
  split; [done|]. split; [apply unchanged_nonneg|].
  rewrite errors_replicate, Hn. split; [done|].
  unfold validCount, len in *. rewrite length_replicate. lia.
Qed.

Lemma classify_one_ext (db : list Product) (a b : RemoteRecord) :
  a !! str "ItemName" = b !! str "ItemName" ->
  classifyAll caseRanges db [a] = classifyAll caseRanges db [b].
Proof.
  intros Hab. unfold classifyAll. cbn [fold_left]. unfold processItem.
  by rewrite Hab.
Qed.

(** X8. ItemName is the only field of a remote record the pass reads: two
    inputs whose records agree on ItemName, position by position, give the
    same outcome and the same batches, whatever their other fields. *)
Theorem X8_only_ItemName_is_read {R} `{ProductRepositoryInterface R}
        (repo : R) (items items' : list RemoteRecord) :
  Forall2 (fun a b => a !! str "ItemName" = b !! str "ItemName")
          items items' ->
  CompareAndSync caseRanges repo items = CompareAndSync caseRanges repo items'
  /\ syncBatches caseRanges repo items = syncBatches caseRanges repo items'.
Proof.
  intros Hall.
  assert (Heq : forall db, classifyAll caseRanges db items
                           = classifyAll caseRanges db items').
  { intros db. induction Hall as [|a b l l' Hab _ IH]; [done|].
    rewrite (classifyAll_cons _ _ a), (classifyAll_cons _ _ b).
    by rewrite IH, (classify_one_ext db a b Hab). }
  unfold CompareAndSync, syncBatches.
  destruct (GetAllProducts repo) as [db|e]; [|done]. by rewrite Heq.
Qed.


Lemma appendState_same (a b b' : syncState) :
  sameUpToOrder b b' -> sameUpToOrder (appendState a b) (appendState a b').
Proof.
  intros (Hr & Hc & Hu). unfold sameUpToOrder, appendState. simpl.
  rewrite Hr. split; [done|]. by rewrite Hc, Hu.
Qed.

Lemma classify_swap (db : list Product) (x y : RemoteRecord) (s : syncState) :
  sameUpToOrder
    (appendState (classifyAll caseRanges db [x])
                 (appendState (classifyAll caseRanges db [y]) s))
    (appendState (classifyAll caseRanges db [y])
                 (appendState (classifyAll caseRanges db [x]) s)).
Proof.
  destruct (classifyAll_counts caseRanges db [x]) as [Hcx Hux].
  destruct (classifyAll_counts caseRanges db [y]) as [Hcy Huy].
  pose proof (errors_replicate db [x]) as Hex.
  pose proof (errors_replicate db [y]) as Hey.
  unfold sameUpToOrder, appendState. simpl.
  rewrite Hcx, Hux, Hcy, Huy, Hex, Hey.
  split; [|split; solve_Permutation].
  f_equal; [lia|]. rewrite !app_assoc. f_equal.
  rewrite <- !replicate_add. f_equal. lia.
Qed.

Lemma classifyAll_Permutation (db : list Product)
      (items items' : list RemoteRecord) :
  items ≡ₚ items' ->
  sameUpToOrder (classifyAll caseRanges db items)
                (classifyAll caseRanges db items').
Proof.
  induction 1 as [|x l l' _ IH|x y l|l l' l'' _ IH1 _ IH2].
  - done.
  - rewrite (classifyAll_cons _ _ x l), (classifyAll_cons _ _ x l').
    by apply appendState_same.
  - rewrite (classifyAll_cons _ _ y (x :: l)), (classifyAll_cons _ _ x l),
      (classifyAll_cons _ _ x (y :: l)), (classifyAll_cons _ _ y l).
    apply classify_swap.
  - destruct IH1 as (Hr1 & Hc1 & Hu1), IH2 as (Hr2 & Hc2 & Hu2).
    split; [congruence|]. split; [by rewrite Hc1|by rewrite Hu1].
Qed.

Lemma finish_same (s s' : syncState) :
  sameUpToOrder s s' -> finish s = finish s'.
Proof.
  intros (Hr & Hc & Hu). unfold finish, len.
  by rewrite Hr, (Permutation_length Hc), (Permutation_length Hu).
Qed.

Lemma CompareAndSync_Permutation {R} `{ProductRepositoryInterface R}
      (repo : R) (items items' : list RemoteRecord) :
  items ≡ₚ items' ->
  CompareAndSync caseRanges repo items = CompareAndSync caseRanges repo items'.
Proof.
  intros Hperm. unfold CompareAndSync.
  destruct (GetAllProducts repo) as [db|e]; [|done].
  f_equal. by apply finish_same, classifyAll_Permutation.
Qed.

(** X9. The order of the remote records does not matter: a permutation of
    the input gives the same outcome (tallies and error list), and batches
    that are permutations of the original ones. *)
Theorem X9_order_of_input_irrelevant {R} `{ProductRepositoryInterface R}
        (repo : R) (db : list Product) (items items' : list RemoteRecord) :
  GetAllProducts repo = Ok db ->
  items ≡ₚ items' ->
  CompareAndSync caseRanges repo items = CompareAndSync caseRanges repo items'
  /\ exists creates updates creates' updates',
      syncBatches caseRanges repo items = Ok (creates, updates)
      /\ syncBatches caseRanges repo items' = Ok (creates', updates')
      /\ creates ≡ₚ creates' /\ updates ≡ₚ updates'.
Proof.
  intros Hdb Hperm. split; [by apply CompareAndSync_Permutation|].
  unfold syncBatches. rewrite Hdb.
  destruct (classifyAll_Permutation db items items' Hperm) as (_ & Hc & Hu).
  eexists _, _, _, _. by repeat split.
Qed.

(** X10. Against an empty store every accepted record is created: the
    create batch holds the entries of the accepted records in input order,
    the update batch is empty, Created is the number of accepted records
    and Unchanged is zero. *)
Theorem X10_empty_store_creates_all {R} `{ProductRepositoryInterface R}
        (repo : R) (items : list RemoteRecord) :
  GetAllProducts repo = Ok [] ->
  syncBatches caseRanges repo items
  = Ok (map (createOf caseRanges) (List.filter validItem items), [])
  /\ exists r,
      CompareAndSync caseRanges repo items = Ok r
      /\ Created r = validCount items /\ Updated r = 0 /\ Unchanged r = 0.
Proof.
  intros Hdb. unfold syncBatches, CompareAndSync. rewrite Hdb.
  assert (Hc : itemsToCreate (classifyAll caseRanges [] items)
               = map (createOf caseRanges) (List.filter validItem items)).
  { rewrite create_batch_filter. f_equal. apply filter_ext.
    intros item. unfold isNew. simpl. by rewrite andb_true_r. }
  assert (Hu : itemsToUpdate (classifyAll caseRanges [] items) = []).
  { destruct (itemsToUpdate _) as [|u us] eqn:E; [done|].
    assert (Hin : u ∈ itemsToUpdate (classifyAll caseRanges [] items))
      by (rewrite E, elem_of_cons; by left).
    apply update_batch_elem in Hin as (item & p & _ & _ & Hp & _).
    done. }
  split; [by rewrite Hc, Hu|]. eexists. split; [done|].
  destruct (classifyAll_counts caseRanges [] items) as [Hc0 Hu0].
  destruct (finish_fields _ Hc0) as (-> & -> & -> & _).
  pose proof (batches_partition caseRanges [] items) as Hp. cbn zeta in Hp.
  rewrite Hc, Hu in *. unfold validCount, len in *.
  rewrite length_map in *. simpl in Hp. split; [done|]. split; [done|]. lia.
Qed.

End PassExtras.

(** ** The persistence gateway *)

Section GatewayExtras.
Import ProductRepository.

Lemma insert_all_app (batch : list CreateItem) (db : Table) :
  exists new,
    fold_left insertRow batch db = db ++ new
    /\ Forall (fun r => exists c, c ∈ batch /\ row_title r = cTitle c
                                  /\ row_handle r = Some (cHandle c)) new.
Proof.
  revert db. induction batch as [|c batch IH]; intros db.
  { exists []. by rewrite app_nil_r. }
  cbn [fold_left]. destruct (IH (insertRow db c)) as (new & -> & Hnew).
  assert (Hnew' : Forall (fun r => exists c', c' ∈ c :: batch
                    /\ row_title r = cTitle c'
                    /\ row_handle r = Some (cHandle c')) new).
  { eapply Forall_impl; [exact Hnew|]. intros r (c' & Hc' & Hr).
    exists c'. split; [rewrite elem_of_cons; by right|done]. }
  unfold insertRow. destruct (handleTaken db (cHandle c)).
  - by exists new.
  - eexists (_ :: new). split; [by rewrite <- app_assoc|].
    constructor; [|done]. exists c. split; [rewrite elem_of_cons; by left|done].
Qed.

Lemma insertRow_ids (db : Table) (c : CreateItem) :
  NoDup (map row_id db) -> NoDup (map row_id (insertRow db c)).
Proof.
  intros Hnd. unfold insertRow. destruct (handleTaken db (cHandle c)); [done|].
  rewrite map_app. apply NoDup_app. split; [done|]. split.
  - intros i Hi Hi'. simpl in Hi'. apply list_elem_of_singleton in Hi' as ->.
    apply list_elem_of_In, in_map_iff in Hi as (r & Hr & Hin).
    apply list_elem_of_In, nextID_above in Hin. lia.
  - simpl. apply NoDup_singleton.
Qed.

Lemma insert_all_ids (batch : list CreateItem) (db : Table) :
  NoDup (map row_id db) -> NoDup (map row_id (fold_left insertRow batch db)).
Proof.
  revert db. induction batch as [|c batch IH]; intros db Hnd; [done|].
  cbn [fold_left]. by apply IH, insertRow_ids.
Qed.

(** X11. CreateProductsBatch only appends: the table it leaves is the old
    table, row for row, followed by new rows, each holding the title and
    the handle of an entry of the batch; and identifiers stay unique. *)
Theorem X11_create_batch_appends (db db' : Table) (batch : list CreateItem) :
  CreateProductsBatch db batch = Ok db' ->
  (exists new,
      db' = db ++ new
      /\ Forall (fun r => exists c, c ∈ batch /\ row_title r = cTitle c
                                    /\ row_handle r = Some (cHandle c)) new)
  /\ (NoDup (map row_id db) -> NoDup (map row_id db')).
Proof.
  intros [= <-]. split; [apply insert_all_app|apply insert_all_ids].
Qed.

Lemma handleTaken_insert_all (batch : list CreateItem) (db : Table)
      (c : CreateItem) :
  c ∈ batch -> handleTaken (fold_left insertRow batch db) (cHandle c) = true.
Proof.
  revert db. induction batch as [|x batch IH]; intros db Hc.
  { by apply elem_of_nil in Hc. }
  cbn [fold_left]. apply elem_of_cons in Hc as [->|Hc]; [|by apply IH].
  apply handleTaken_insert_all_mono, handleTaken_insertRow.
Qed.

Lemma insert_all_taken (batch : list CreateItem) (db : Table) :
  (forall c, c ∈ batch -> handleTaken db (cHandle c) = true) ->
  fold_left insertRow batch db = db.
Proof.
  induction batch as [|c batch IH]; intros Hall; [done|].
  cbn [fold_left]. unfold insertRow at 2.
  rewrite Hall by (rewrite elem_of_cons; by left).
  apply IH. intros c' Hc'. apply Hall. rewrite elem_of_cons. by right.
Qed.

(** X12. CreateProductsBatch is idempotent: after a batch every handle of
    the batch is held by a row, and submitting the same batch again leaves
    the table as it is. *)
Theorem X12_create_batch_idempotent
        (db db' : Table) (batch : list CreateItem) :
  CreateProductsBatch db batch = Ok db' ->
  (forall c, c ∈ batch -> handleTaken db' (cHandle c) = true)
  /\ CreateProductsBatch db' batch = Ok db'.
Proof.
  intros [= <-].
  assert (Hall : forall c, c ∈ batch ->
             handleTaken (fold_left insertRow batch db) (cHandle c) = true).
  { intros c Hc. by apply handleTaken_insert_all. }
  split; [exact Hall|].
  unfold CreateProductsBatch; cbn. unfold ProductRepository.CreateProductsBatch.
  by rewrite insert_all_taken.
Qed.

Lemma handles_app (db1 db2 : Table) :
  omap row_handle (db1 ++ db2) = omap row_handle db1 ++ omap row_handle db2.
Proof. apply omap_app. Qed.

Lemma handleTaken_handles (db : Table) (h : gostring) :
  handleTaken db h = true <-> h ∈ omap row_handle db.
Proof.
  rewrite handleTaken_true, list_elem_of_omap. split.
  - intros (r & Hr & Hh). by exists r.
  - intros (r & Hr & Hh). by exists r.
Qed.

Lemma insertRow_handles (db : Table) (c : CreateItem) :
  NoDup (omap row_handle db) -> NoDup (omap row_handle (insertRow db c)).
Proof.
  intros Hnd. unfold insertRow.
  destruct (handleTaken db (cHandle c)) eqn:E; [done|].
  rewrite handles_app. apply NoDup_app. split; [done|]. split.
  - intros h Hh Hh'. simpl in Hh'. apply list_elem_of_singleton in Hh' as ->.
    apply handleTaken_handles in Hh. congruence.
  - simpl. apply NoDup_singleton.
Qed.

(** X13. CreateProductsBatch keeps handles unique: if no two rows of the
    table hold the same non-null handle, the same is true after the
    batch, whatever the batch holds. *)
Theorem X13_create_batch_keeps_handles_unique
        (db db' : Table) (batch : list CreateItem) :
  NoDup (omap row_handle db) ->
  CreateProductsBatch db batch = Ok db' ->
  NoDup (omap row_handle db').
Proof.
  intros Hnd [= <-]. revert db Hnd.
  induction batch as [|c batch IH]; intros db Hnd; [done|].
  cbn [fold_left]. by apply IH, insertRow_handles.
Qed.

Lemma insert_all_fresh_length (batch : list CreateItem) (db : Table) :
  NoDup (map cHandle batch) ->
  (forall c, c ∈ batch -> handleTaken db (cHandle c) = false) ->
  length (fold_left insertRow batch db) = (length db + length batch)%nat.
Proof.
  revert db. induction batch as [|c batch IH]; intros db Hnd Hfree.
  { simpl. lia. }
  cbn [fold_left map] in *. apply NoDup_cons in Hnd as [Hc Hnd].
  rewrite IH; [| done |].
  - unfold insertRow. rewrite Hfree by (rewrite elem_of_cons; by left).
    rewrite length_app. simpl. lia.
  - intros c' Hc'. unfold insertRow.
    rewrite Hfree by (rewrite elem_of_cons; by left).
    rewrite handleTaken_app, Hfree by (rewrite elem_of_cons; by right).
    simpl. rewrite orb_false_r. apply bool_decide_eq_false.
    intros [= Heq]. apply Hc. rewrite Heq.
    apply list_elem_of_In, in_map. by apply list_elem_of_In.
Qed.

(** X14. When the handles of a batch are pairwise different and none is
    held by a row of the table, CreateProductsBatch inserts one row per
    entry: the table grows by exactly the size of the batch. *)
Theorem X14_create_batch_exact_when_fresh
        (db db' : Table) (batch : list CreateItem) :
  NoDup (map cHandle batch) ->
  (forall c, c ∈ batch -> handleTaken db (cHandle c) = false) ->
  CreateProductsBatch db batch = Ok db' ->
  len db' = len db + len batch.
Proof.
  intros Hnd Hfree [= <-]. unfold len.
  rewrite insert_all_fresh_length by done. lia.
Qed.

Lemma updateRow_ids (db : Table) (u : UpdateItem) :
  map row_id (updateRow db u) = map row_id db.
Proof.
  unfold updateRow. rewrite map_map. apply map_ext.
  intros r. by destruct (row_id r =? uID u).
Qed.

Lemma update_all_ids (updates : list UpdateItem) (db : Table) :
  map row_id (fold_left updateRow updates db) = map row_id db.
Proof.
  revert db. induction updates as [|u updates IH]; intros db; [done|].
  cbn [fold_left]. by rewrite IH, updateRow_ids.
Qed.

Lemma updateRow_other (db : Table) (u : UpdateItem) (i : nat) (r : Row) :
  db !! i = Some r -> row_id r <> uID u -> updateRow db u !! i = Some r.
Proof.
  intros Hi Hne. unfold updateRow.
  change (map ?f db) with (f <$> db). rewrite list_lookup_fmap, Hi. simpl.
  by destruct (Z.eqb_spec (row_id r) (uID u)).
Qed.

Lemma update_all_other (updates : list UpdateItem) (db : Table)
      (i : nat) (r : Row) :
  db !! i = Some r -> (forall u, u ∈ updates -> uID u <> row_id r) ->
  fold_left updateRow updates db !! i = Some r.
Proof.
  revert db. induction updates as [|u updates IH]; intros db Hi Hall; [done|].
  cbn [fold_left]. apply IH.
  - apply updateRow_other; [done|]. intros Heq.
    apply (Hall u); [rewrite elem_of_cons; by left|done].
  - intros u' Hu'. apply Hall. rewrite elem_of_cons. by right.
Qed.


Lemma updateRow_hit (db : Table) (u : UpdateItem) (i : nat) (r : Row) :
  db !! i = Some r -> row_id r = uID u ->
  updateRow db u !! i = Some (mkRow (uID u) (uTitle u) (Some (uHandle u))).
Proof.
  intros Hi Heq. unfold updateRow.
  change (map ?f db) with (f <$> db). rewrite list_lookup_fmap, Hi. simpl.
  apply Z.eqb_eq in Heq as Heq'. rewrite Heq'. by rewrite Heq.
Qed.

(** X16. In UpdateProductsBatch the last entry for an identifier wins:
    after the batch, a row whose identifier the entry [u] names, with no
    later entry naming it, holds the title and the handle of [u]. *)
Theorem X16_update_batch_last_entry_wins
        (db db' : Table) (before after : list UpdateItem) (u : UpdateItem)
        (i : nat) (r : Row) :
  UpdateProductsBatch db (before ++ u :: after) = Ok db' ->
  db !! i = Some r -> row_id r = uID u ->
  (forall u', u' ∈ after -> uID u' <> uID u) ->
  db' !! i = Some (mkRow (uID u) (uTitle u) (Some (uHandle u))).
Proof.
  intros [= <-] Hi Hid Hafter.
  rewrite fold_left_app. cbn [fold_left].
  assert (Hmid : exists r', fold_left updateRow before db !! i = Some r'
                            /\ row_id r' = uID u).
  { assert (Hids : map row_id (fold_left updateRow before db) !! i
                   = Some (uID u)).
    { rewrite update_all_ids. change (map row_id db) with (row_id <$> db).
      by rewrite list_lookup_fmap, Hi, <- Hid. }
    change (map row_id ?l) with (row_id <$> l) in Hids.
    rewrite list_lookup_fmap in Hids.
    destruct (fold_left updateRow before db !! i) as [r'|]; [|done].
    exists r'. split; [done|]. by inversion Hids. }
  destruct Hmid as (r' & Hr' & Hid').
  apply update_all_other.
  - by apply updateRow_hit with (r := r').
  - simpl. exact Hafter.
Qed.

End GatewayExtras.

(** ** The fetcher on success and at the bounds *)

Section SenderExtras.
Import handler.

(** X20. When the loop of the sender runs to its end, with a positive
    page size and without overflow of the loop counter, the jobs it has
    sent tile the index range: every index from 0 up to totalCount - 1
    lies in the window [Skip, Skip + Top) of exactly one job. *)
Theorem X20_pages_tile_the_range
        (totalCount pageSize : Z) (fuel : nat)
        (jobs : list PageJob) (i : Z) :
  0 < pageSize ->
  pageSize * pageCount totalCount pageSize <= maxInt ->
  sendJobs fuel None 0 totalCount pageSize = Some jobs ->
  0 <= i < totalCount ->
  exists job,
    job ∈ jobs /\ Skip job <= i < Skip job + Top job
    /\ forall job', job' ∈ jobs ->
         Skip job' <= i < Skip job' + Top job' -> job' = job.
Proof.
  intros Hpage Hrep Hjobs Hi.
  apply sendJobs_total in Hjobs; [|lia || done..]. subst jobs.
  assert (Hin : forall job,
             job ∈ map (fun skip => mkPageJob skip pageSize)
                       (pageOffsets totalCount pageSize)
             <-> Top job = pageSize /\ 0 <= Skip job < totalCount
                 /\ (pageSize | Skip job)).
  { intros job. rewrite list_elem_of_In, in_map_iff. split.
    - intros (skip & <- & Hs). apply list_elem_of_In in Hs.
      apply pageOffsets_spec in Hs; [|lia || done..]. simpl. tauto.
    - intros (Ht & Hs). exists (Skip job). split.
      + destruct job as [s t]; simpl in *. by subst.
      + apply list_elem_of_In, pageOffsets_spec; [lia || done..|tauto]. }
  exists (mkPageJob (pageSize * (i / pageSize)) pageSize).
  pose proof (Z.mul_div_le i pageSize Hpage) as Hle.
  pose proof (Z.mul_succ_div_gt i pageSize Hpage) as Hgt.
  assert (0 <= i / pageSize) by (apply Z.div_pos; lia).
  split; [|split].
  - apply Hin. simpl. split; [done|]. split; [nia|].
    exists (i / pageSize). lia.
  - simpl. lia.
  - intros job' Hjob' Hcov. apply Hin in Hjob' as (Ht & Hs & q & Hq).
    destruct job' as [s t]; simpl in *. subst t s.
    f_equal. assert (q = i / pageSize); [|subst; lia]. nia.
Qed.

End SenderExtras.

Section FetcherExtras.
Import handler.
Variable fetchItemsPage : Z -> Z -> result (list RemoteRecord).

Lemma combineFrom_ok (allResults : list PageResult)
      (allItems : list RemoteRecord) :
  Forall (fun r => Err r = None) allResults ->
  combineFrom allItems allResults
  = (allItems ++ concat (map Items allResults), None).
Proof.
  intros Hall. revert allItems.
  induction Hall as [|r rest Hr _ IH]; intros allItems; simpl.
  - by rewrite app_nil_r.
  - rewrite Hr, IH. by rewrite <- app_assoc.
Qed.

Lemma combine_error_free (allResults : list PageResult) :
  snd (combine allResults) = None
  <-> Forall (fun r => Err r = None) allResults.
Proof.
  split.
  - intros Hnone. apply list.Forall_forall. intros r Hr.
    destruct (Err r) as [e|] eqn:He; [|done]. exfalso.
    destruct (combineFrom_failure allResults []) as (r' & e' & _ & _ & Hc).
    { exists r. split; [done|congruence]. }
    unfold combine in Hnone. by rewrite Hc in Hnone.
  - intros Hall. unfold combine. by rewrite combineFrom_ok.
Qed.

Lemma concat_Permutation {A : Type} (l k : list (list A)) :
  l ≡ₚ k -> concat l ≡ₚ concat k.
Proof.
  induction 1 as [|x l k _ IH|x y l|l k m _ IH1 _ IH2]; simpl.
  - done.
  - by rewrite IH.
  - rewrite !app_assoc. f_equiv. apply Permutation_app_comm.
  - by rewrite IH1.
Qed.

Lemma results_items (jobs : list PageJob) (allResults : list PageResult) :
  allResults ≡ₚ map (runJob fetchItemsPage) jobs ->
  concat (map Items allResults)
  ≡ₚ concat (map (fun job => Items (runJob fetchItemsPage job)) jobs).
Proof.
  intros Hperm. rewrite <- (map_map (runJob fetchItemsPage) Items).
  apply concat_Permutation. by apply Permutation_map.
Qed.

Lemma results_error_free (jobs : list PageJob)
      (allResults : list PageResult) :
  allResults ≡ₚ map (runJob fetchItemsPage) jobs ->
  Forall (fun r => Err r = None) allResults
  <-> forall job, job ∈ jobs ->
        exists items, fetchItemsPage (Top job) (Skip job) = Ok items.
Proof.
  intros Hperm. rewrite list.Forall_forall. split.
  - intros Hall job Hjob.
    assert (Hr : runJob fetchItemsPage job ∈ allResults).
    { rewrite Hperm. apply list_elem_of_In, in_map.
      by apply list_elem_of_In. }
    specialize (Hall _ Hr). unfold runJob in Hall.
    destruct (fetchItemsPage (Top job) (Skip job)) as [items|e]; [|done].
    by exists items.
  - intros Hall r Hr. rewrite Hperm in Hr.
    apply list_elem_of_In, in_map_iff in Hr as (job & <- & Hjob).
    destruct (Hall job (proj2 (list_elem_of_In _ _) Hjob)) as (items & Hi).
    unfold runJob. by rewrite Hi.
Qed.

(** X19. In any call, also one whose context is done, the function
    returns no error exactly when the jobs whose results were gathered
    were all answered with a page, and the records it then returns are
    those pages in the order their results arrived; the jobs are some of
    the jobs sent, each counted once.  When the context stays live and
    there is a worker, these are all the jobs of the loop, so that no
    record is lost or returned twice. *)
Theorem X19_fetch_success_returns_all_pages
        (ctx : Ctx) (totalCount pageSize numWorkers : Z)
        (sent fetched : list PageJob) (allResults : list PageResult) :
  gathered fetchItemsPage ctx totalCount pageSize numWorkers
           sent fetched allResults ->
  exists got,
    got ⊆+ sent
    /\ (ctx = ctxLive -> 1 <= numWorkers -> got ≡ₚ sent)
    /\ (snd (combine allResults) = None
        <-> forall job, job ∈ got ->
              exists items, fetchItemsPage (Top job) (Skip job) = Ok items)
    /\ (snd (combine allResults) = None ->
        fst (combine allResults) = concat (map Items allResults)
        /\ fst (combine allResults)
           ≡ₚ concat (map (fun job => Items (runJob fetchItemsPage job))
                          got)).
Proof.
  intros Hrun.
  assert (Hgot : exists got,
             got ⊆+ sent
             /\ (ctx = ctxLive -> 1 <= numWorkers -> got ≡ₚ sent)
             /\ allResults ≡ₚ map (runJob fetchItemsPage) got).
  { destruct ctx.
    - destruct (gathered_live _ _ _ _ _ _ _ Hrun)
        as [(-> & -> & -> & ->)|(_ & _ & _ & _ & Hrs)].
      + exists []. split; [done|]. split; [lia|done].
      + exists sent. by repeat split.
    - destruct (gathered_sub _ _ _ _ _ _ _ _ Hrun) as (got & Hrs & Hg & Hf).
      exists got. split; [by etrans|]. split; [done|done]. }
  destruct Hgot as (got & Hsub & Hall & Hrs).
  exists got. split; [done|]. split; [done|]. split.
  - rewrite combine_error_free. by apply results_error_free.
  - intros Hnone. apply combine_error_free in Hnone.
    unfold combine. rewrite combineFrom_ok by done. cbn [fst app].
    split; [done|]. by apply results_items.
Qed.

(** X21. With totalCount at or below zero no page is requested: for a
    worker count that is not negative and for which both channels can be
    made, a run exists for any page size and whatever the context does,
    and every run sends no job, gathers no result and returns no records
    and no error. *)
Theorem X21_nothing_to_fetch
        (ctx : Ctx) (totalCount pageSize numWorkers : Z) :
  totalCount <= 0 -> 0 <= numWorkers ->
  channelsMade numWorkers = true ->
  gathered fetchItemsPage ctx totalCount pageSize numWorkers [] [] []
  /\ forall ret,
      fetchAllItemsConcurrently fetchItemsPage
        totalCount pageSize numWorkers ret ->
      ret = ([], None).
Proof.
  intros Htotal Hw Hmade. split.
  - destruct (decide (numWorkers = 0)) as [->|Hne].
    + by apply gathered_no_worker.
    + apply (gathered_uncancelled _ _ 1); [lia|done| |done|done].
      cbn [sendJobs].
      by replace (0 <? totalCount) with false
        by (symmetry; apply Z.ltb_ge; lia).
  - intros ret (jobs & allResults & (ctx' & fetched & Hrun) & ->).
    by destruct (gathered_nothing _ _ _ _ _ _ _ _ Htotal Hrun)
      as (-> & -> & ->).
Qed.

Lemma sendJobs_zero_page (fuel : nat) (stop : option nat)
      (totalCount : Z) (sent : list PageJob) :
  sendJobs fuel stop 0 totalCount 0 = Some sent ->
  Forall (fun job => job = mkPageJob 0 0) sent.
Proof.
  revert stop sent. induction fuel as [|fuel IH]; intros stop sent; [done|].
  cbn [sendJobs]. change (wrapInt (0 + 0)) with 0.
  destruct (0 <? totalCount); [|by intros [= <-]].
  destruct stop as [[|n]|]; [by intros [= <-]| |].
  - destruct (sendJobs fuel (Some n) 0 totalCount 0) as [j|] eqn:Hj; [|done].
    intros [= <-]. constructor; [done|by eapply IH].
  - destruct (sendJobs fuel None 0 totalCount 0) as [j|] eqn:Hj; [|done].
    intros [= <-]. constructor; [done|by eapply IH].
Qed.

(** X22. With a page size of zero and a positive totalCount the loop of
    the sender never comes to its end: the offset stays at 0.  With at
    least one worker the function does not return while the context is
    live; without a worker it returns no records and no error at once; and
    every job of any run is the one at offset 0 with limit 0. *)
Theorem X22_zero_page_size_never_returns
        (totalCount numWorkers : Z) :
  0 < totalCount ->
  (forall fuel, sendJobs fuel None 0 totalCount 0 = None)
  /\ (1 <= numWorkers ->
      forall ret,
        ~ fetchAllItemsConcurrentlyIn fetchItemsPage ctxLive
            totalCount 0 numWorkers ret)
  /\ (numWorkers = 0 ->
      forall ctx,
        fetchAllItemsConcurrentlyIn fetchItemsPage ctx
          totalCount 0 numWorkers ([], None)
        /\ forall ret,
            fetchAllItemsConcurrentlyIn fetchItemsPage ctx
              totalCount 0 numWorkers ret ->
            ret = ([], None))
  /\ (forall ctx sent fetched allResults,
         gathered fetchItemsPage ctx totalCount 0 numWorkers
                  sent fetched allResults ->
         Forall (fun job => job = mkPageJob 0 0) sent).
Proof.
  intros Htotal.
  assert (Hloop : forall fuel, sendJobs fuel None 0 totalCount 0 = None).
  { induction fuel as [|fuel IH]; [done|]. cbn [sendJobs].
    replace (0 <? totalCount) with true by (symmetry; apply Z.ltb_lt; lia).
    change (wrapInt (0 + 0)) with 0. by rewrite IH. }
  split; [exact Hloop|]. split; [|split].
  - intros Hw ret (sent & fetched & allResults & Hrun & _).
    destruct (gathered_live _ _ _ _ _ _ _ Hrun)
      as [(-> & _)|(_ & _ & [fuel Hsent] & _)]; [lia|].
    by rewrite Hloop in Hsent.
  - intros -> ctx. split.
    + exists [], [], []. split; [by apply gathered_no_worker|done].
    + intros ret (sent & fetched & allResults & Hrun & ->).
      destruct Hrun as [_|? ? ? ? ? ? ? Hw]; [done|lia].
  - intros ctx sent fetched allResults Hrun.
    destruct Hrun as [_|fuel stop sent ? ? ? ? _ _ Hsent]; [done|].
    by eapply sendJobs_zero_page.
Qed.

End FetcherExtras.

(** ** Handler *)

Section HandlerExtras.
Import handler.

Lemma HasPrefix_spec (s prefix : gostring) :
  strings.HasPrefix s prefix = true
  <-> s = prefix ++ drop (length prefix) s.
Proof.
  unfold strings.HasPrefix. rewrite andb_true_iff, bool_decide_eq_true.
  split.
  - intros [_ Htake]. rewrite <- Htake at 1. by rewrite take_drop.
  - intros Heq. split.
    + apply Nat.leb_le. rewrite Heq, length_app. lia.
    + rewrite Heq at 1. by rewrite take_app_length.
Qed.

Lemma authorized_spec (authHeader CRONSecret : gostring) :
  authorized authHeader CRONSecret = true
  <-> authHeader = str "Bearer " ++ CRONSecret.
Proof.
  unfold authorized, strings.TrimPrefix.
  rewrite negb_true_iff, orb_false_iff, negb_false_iff.
  split.
  - intros [Hp Hs]. rewrite Hp in Hs.
    apply bool_decide_eq_false in Hs.
    apply HasPrefix_spec in Hp. rewrite Hp. f_equal.
    destruct (decide (drop (length (str "Bearer ")) authHeader = CRONSecret));
      [done|]. by destruct Hs.
  - intros ->.
    assert (Hp : strings.HasPrefix (str "Bearer " ++ CRONSecret)
                                   (str "Bearer ") = true).
    { apply HasPrefix_spec. by rewrite drop_app_length. }
    rewrite Hp. split; [done|]. apply bool_decide_eq_false.
    intros Hne. apply Hne. by rewrite drop_app_length.
Qed.

(** X23. The security check of the handlers passes exactly the header
    "Bearer " followed by the secret, byte for byte; nothing else passes,
    and with an empty secret the header "Bearer " passes. *)
Theorem X23_authorized_iff_bearer_secret (authHeader CRONSecret : gostring) :
  (authorized authHeader CRONSecret = true
   <-> authHeader = str "Bearer " ++ CRONSecret)
  /\ authorized (str "Bearer ") [] = true.
Proof. split; [apply authorized_spec|reflexivity]. Qed.

Section FetchOutcome.
Variable fetchItemsPage : Z -> Z -> result (list RemoteRecord).

Lemma pages_of_run (totalCount pageSize numWorkers : Z)
      (sent fetched : list PageJob) (allResults : list PageResult)
      (allItems : list RemoteRecord) :
  1 <= numWorkers ->
  gathered fetchItemsPage ctxLive totalCount pageSize numWorkers
           sent fetched allResults ->
  combine allResults = (allItems, None) ->
  allItems
  ≡ₚ concat (map (fun job => Items (runJob fetchItemsPage job)) sent).
Proof.
  intros Hw Hrun Hcombine.
  destruct (gathered_live _ _ _ _ _ _ _ Hrun)
    as [(-> & _)|(_ & _ & _ & _ & Hrs)]; [lia|].
  assert (Hfree : Forall (fun r => Err r = None) allResults).
  { apply combine_error_free. by rewrite Hcombine. }
  unfold combine in Hcombine. rewrite combineFrom_ok in Hcombine by done.
  inversion Hcombine; subst.
  by apply results_items.
Qed.

Lemma fetch_outcome_stable (totalCount pageSize numWorkers : Z)
      (sent sent' fetched fetched' : list PageJob)
      (allResults allResults' : list PageResult)
      (allItems allItems' : list RemoteRecord) (e' : option error) :
  1 <= numWorkers ->
  gathered fetchItemsPage ctxLive totalCount pageSize numWorkers
           sent fetched allResults ->
  combine allResults = (allItems, None) ->
  gathered fetchItemsPage ctxLive totalCount pageSize numWorkers
           sent' fetched' allResults' ->
  combine allResults' = (allItems', e') ->
  e' = None /\ allItems' ≡ₚ allItems.
Proof.
  intros Hw Hrun Hcombine Hrun' Hcombine'.
  pose proof (pages_of_run _ _ _ _ _ _ _ Hw Hrun Hcombine) as Hpages.
  assert (Hfree : Forall (fun r => Err r = None) allResults).
  { apply combine_error_free. by rewrite Hcombine. }
  destruct (gathered_live _ _ _ _ _ _ _ Hrun)
    as [(-> & _)|(_ & _ & [fuel Hsent] & _ & Hrs)]; [lia|].
  destruct (gathered_live _ _ _ _ _ _ _ Hrun')
    as [(-> & _)|(_ & _ & [fuel' Hsent'] & _ & Hrs')]; [lia|].
  assert (sent' = sent) as -> by (by eapply sendJobs_more_fuel).
  assert (Hfree' : Forall (fun r => Err r = None) allResults')
    by (by rewrite Hrs', <- Hrs).
  assert (e' = None) as ->.
  { apply combine_error_free in Hfree'. rewrite Hcombine' in Hfree'.
    done. }
  split; [done|].
  rewrite Hpages. by apply (pages_of_run _ _ _ _ _ _ _ Hw Hrun' Hcombine').
Qed.

End FetchOutcome.

Section Runs.
Context {R : Type} `{ProductRepositoryInterface R}.
Variable caseRanges : rune -> rune.
Variable CRONSecret : gostring.
Variable api : ExternalAPI.
Variable repo : R.
Variable authHeader : gostring.

Lemma pageCalls_no_session_call (sessionID : gostring)
      (fetched : list PageJob) (c : Call) :
  c ∈ pageCalls sessionID fetched ->
  c <> callLogin /\ c <> callGetAllProducts /\ forall s, c <> callLogout s.
Proof.
  unfold pageCalls. intros Hc.
  apply list_elem_of_In, in_map_iff in Hc as (r & <- & _). done.
Qed.

(** X24. Handler logs out exactly when it has logged in: in every run in
    which login succeeds the call to logout is the last call, is the only
    call to logout, and carries the session login returned, whatever
    happens in between; when login fails or the request is rejected there
    is no call to logout.  Login is called at most once, first. *)
Theorem X24_logout_follows_login (resp : Response) (calls : list Call) :
  Handler caseRanges CRONSecret api repo authHeader resp calls ->
  (calls = [] /\ authorized authHeader CRONSecret = false)
  \/ (calls = [callLogin] /\ exists err, login api = Fail err)
  \/ exists sessionID between,
      login api = Ok sessionID
      /\ calls = callLogin :: between ++ [callLogout sessionID]
      /\ (callLogin ∉ between)
      /\ forall s, callLogout s ∉ between.
Proof.
  intros [ctx Hrun].
  assert (Hmid : forall sid ps (l : list Call) (c : Call),
             (c = callLogin \/ exists s, c = callLogout s) ->
             Forall (fun x => x = callGetAllProducts) l ->
             c ∉ callGetItemCount sid :: pageCalls sid ps ++ l).
  { intros sid ps l c Hc Hl Hin.
    apply elem_of_cons in Hin as [->|Hin].
    { destruct Hc as [Hc|[s Hc]]; discriminate. }
    apply elem_of_app in Hin as [Hin|Hin].
    - apply pageCalls_no_session_call in Hin as (H1 & _ & H2).
      destruct Hc as [Hc|[s Hc]]; [done|by apply (H2 s)].
    - rewrite list.Forall_forall in Hl. rewrite (Hl _ Hin) in Hc.
      destruct Hc as [Hc|[s Hc]]; discriminate. }
  inversion Hrun; subst.
  - left. done.
  - right; left. split; [done|]. by eexists.
  - right; right. exists sessionID, [callGetItemCount sessionID].
    split; [done|]. split; [done|]. split.
    + apply (Hmid sessionID [] []); [by left|done].
    + intros s. apply (Hmid sessionID [] []); [right; by exists s|done].
  - right; right.
    exists sessionID, (callGetItemCount sessionID
                         :: pageCalls sessionID fetched ++ []).
    split; [done|]. split; [by rewrite app_nil_r|]. split.
    + apply Hmid; [by left|done].
    + intros s. apply Hmid; [right; by exists s|done].
  - right; right.
    exists sessionID, (callGetItemCount sessionID
                         :: pageCalls sessionID fetched
                         ++ [callGetAllProducts]).
    split; [done|]. split; [simpl; by rewrite <- app_assoc|]. split.
    + apply Hmid; [by left|]. by repeat constructor.
    + intros s. apply Hmid; [right; by exists s|]. by repeat constructor.
  - right; right.
    exists sessionID, (callGetItemCount sessionID
                         :: pageCalls sessionID fetched
                         ++ [callGetAllProducts]).
    split; [done|]. split; [simpl; by rewrite <- app_assoc|]. split.
    + apply Hmid; [by left|]. by repeat constructor.
    + intros s. apply Hmid; [right; by exists s|]. by repeat constructor.
Qed.

(** What a run that reads the store has behind it. *)
Lemma store_read_follows_fetch (ctx : Ctx) (sessionID : gostring)
      (count : Z) (sent fetched : list PageJob)
      (allResults : list PageResult) (allItems : list RemoteRecord) :
  gathered (fetchItemsPage api sessionID) ctx count 20 2
           sent fetched allResults ->
  combine allResults = (allItems, None) ->
  Forall (fun r => Err r = None) allResults
  /\ (ctx = ctxLive ->
      (exists fuel, sendJobs fuel None 0 count 20 = Some sent)
      /\ forall job, job ∈ sent ->
           exists items,
             fetchItemsPage api sessionID (Top job) (Skip job) = Ok items).
Proof.
  intros Hrun Hcombine.
  assert (Hfree : Forall (fun r => Err r = None) allResults).
  { apply combine_error_free. by rewrite Hcombine. }
  split; [done|]. intros ->.
  destruct (gathered_live _ _ _ _ _ _ _ Hrun)
    as [([=] & _)|(_ & _ & Hsent & _ & Hrs)].
  split; [done|]. by apply (results_error_free _ _ allResults).
Qed.

(** X25. Handler answers 401, 500 or 200.  It answers 401 exactly when
    the header is not "Bearer " followed by the secret, and then calls no
    collaborator.  The store is read only after login and the count have
    succeeded and no page result that was gathered carries an error;
    while the context of the request is live, the pages gathered are all
    the pages of the collection.  It answers 200 only with the count the
    remote service gave as totalItems. *)
Theorem X25_handler_status (ctx : Ctx) (resp : Response)
        (calls : list Call) :
  HandlerIn ctx caseRanges CRONSecret api repo authHeader resp calls ->
  (statusCode resp = 401 \/ statusCode resp = 500 \/ statusCode resp = 200)
  /\ (statusCode resp = 401 <-> authHeader <> str "Bearer " ++ CRONSecret)
  /\ (statusCode resp = 401 -> calls = [])
  /\ (callGetAllProducts ∈ calls ->
      exists sessionID count sent fetched allResults,
        login api = Ok sessionID
        /\ getItemCount api sessionID = Ok count
        /\ gathered (fetchItemsPage api sessionID) ctx count 20 2
                    sent fetched allResults
        /\ Forall (fun r => Err r = None) allResults
        /\ (ctx = ctxLive ->
            (exists fuel, sendJobs fuel None 0 count 20 = Some sent)
            /\ forall job, job ∈ sent ->
                 exists items,
                   fetchItemsPage api sessionID (Top job) (Skip job)
                   = Ok items))
  /\ (forall message totalItems itemsFetched syncResult,
        resp = jsonOK message totalItems itemsFetched syncResult ->
        exists sessionID,
          login api = Ok sessionID
          /\ getItemCount api sessionID = Ok totalItems).
Proof.
  intros Hrun.
  assert (Hauth : forall b, authorized authHeader CRONSecret = b ->
             (b = false <-> authHeader <> str "Bearer " ++ CRONSecret)).
  { intros b Hb. rewrite <- authorized_spec, Hb. by destruct b. }
  assert (Hnoget : forall sid ps (l : list Call),
             callGetAllProducts ∉ l ->
             callGetAllProducts
             ∉ [callLogin; callGetItemCount sid] ++ pageCalls sid ps ++ l).
  { intros sid ps l Hl Hin.
    rewrite !elem_of_app, !elem_of_cons, elem_of_nil in Hin.
    destruct Hin as [[Hin|[Hin|[]]]|[Hin|Hin]]; try done.
    by apply pageCalls_no_session_call in Hin as (_ & Hin & _). }
  inversion Hrun
    as [Hok
       |err Hok Hlogin
       |sessionID err Hok Hlogin Hcount
       |sessionID count sent fetched allResults allItems err
          Hok Hlogin Hcount Hfetch Hcombine
       |sessionID count sent fetched allResults allItems err
          Hok Hlogin Hcount Hfetch Hcombine Hsync
       |sessionID count sent fetched allResults allItems syncResult
          Hok Hlogin Hcount Hfetch Hcombine Hsync];
    subst; cbn [statusCode].
  - split; [by left|]. split; [by rewrite <- (Hauth false)|].
    split; [done|]. split; [by intros Hin%elem_of_nil|]. done.
  - split; [right; by left|]. split.
    { rewrite <- (Hauth true) by done. split; done. }
    split; [done|]. split; [|done].
    rewrite list_elem_of_singleton. done.
  - split; [right; by left|]. split.
    { rewrite <- (Hauth true) by done. split; done. }
    split; [done|]. split; [|done].
    rewrite !elem_of_cons, elem_of_nil. by intros [|[|[|]]].
  - split; [right; by left|]. split.
    { rewrite <- (Hauth true) by done. split; done. }
    split; [done|]. split; [|done].
    intros Hin. exfalso. revert Hin. apply Hnoget.
    rewrite list_elem_of_singleton. done.
  - split; [right; by left|]. split.
    { rewrite <- (Hauth true) by done. split; done. }
    split; [done|]. split; [|done].
    intros _. exists sessionID, count, sent, fetched, allResults.
    repeat (split; [done|]).
    by apply (store_read_follows_fetch ctx sessionID count sent fetched
                                          allResults allItems).
  - split; [right; by right|]. split.
    { rewrite <- (Hauth true) by done. split; done. }
    split; [done|]. split.
    + intros _. exists sessionID, count, sent, fetched, allResults.
      repeat (split; [done|]).
      by apply (store_read_follows_fetch ctx sessionID count sent fetched
                                          allResults allItems).
    + intros message totalItems itemsFetched syncResult' [= <- <- <- <-].
      by exists sessionID.
Qed.

(** X26. While the context of the request is live, a 200 answer does not
    depend on the scheduler: if one such run of Handler answers 200,
    every such run on the same request, service and store writes the same
    response, whatever the order in which the pages arrive; itemsFetched
    is the number of records of all pages, and syncResult is the outcome
    of CompareAndSync on the pages concatenated by offset. *)
Theorem X26_success_is_deterministic
        (message : gostring) (totalItems itemsFetched : Z)
        (syncResult : SyncResult) (calls : list Call) :
  HandlerIn ctxLive caseRanges CRONSecret api repo authHeader
            (jsonOK message totalItems itemsFetched syncResult) calls ->
  (forall resp' calls',
      HandlerIn ctxLive caseRanges CRONSecret api repo authHeader
                resp' calls' ->
      resp' = jsonOK message totalItems itemsFetched syncResult)
  /\ exists sessionID fuel jobs,
      login api = Ok sessionID
      /\ sendJobs fuel None 0 totalItems 20 = Some jobs
      /\ itemsFetched
         = len (concat (map (fun job =>
                               Items (runJob (fetchItemsPage api sessionID) job))
                            jobs))
      /\ CompareAndSync caseRanges repo
           (concat (map (fun job =>
                           Items (runJob (fetchItemsPage api sessionID) job))
                        jobs))
         = Ok syncResult.
Proof.
  intros Hrun.
  assert (Hw : 1 <= 2) by lia.
  inversion Hrun as [| | | | |sessionID count sent fetched allResults
                             allItems sr
                             Hauth Hlogin Hcount Hcol Hcombine Hsync];
    subst.
  pose proof (pages_of_run _ _ _ _ _ _ _ _ Hw Hcol Hcombine) as Hpages.
  split.
  - intros resp' calls' Hrun'.
    inversion Hrun'
      as [Hauth'
         |err' Hauth' Hlogin'
         |sid' err' Hauth' Hlogin' Hcount'
         |sid' count' sent' fetched' allResults' allItems' err'
            Hauth' Hlogin' Hcount' Hcol' Hcombine'
         |sid' count' sent' fetched' allResults' allItems' err'
            Hauth' Hlogin' Hcount' Hcol' Hcombine' Hsync'
         |sid' count' sent' fetched' allResults' allItems' sr'
            Hauth' Hlogin' Hcount' Hcol' Hcombine' Hsync'];
      subst; try congruence.
    + exfalso.
      assert (sid' = sessionID) as -> by congruence.
      assert (count' = totalItems) as -> by congruence.
      by destruct (fetch_outcome_stable _ _ _ _ _ _ _ _ _ _ _ _ _
                     Hw Hcol Hcombine Hcol' Hcombine').
    + exfalso.
      assert (sid' = sessionID) as -> by congruence.
      assert (count' = totalItems) as -> by congruence.
      destruct (fetch_outcome_stable _ _ _ _ _ _ _ _ _ _ _ _ _
                  Hw Hcol Hcombine Hcol' Hcombine') as [_ Hsame].
      rewrite (CompareAndSync_Permutation caseRanges repo _ _ Hsame) in Hsync'.
      congruence.
    + assert (sid' = sessionID) as -> by congruence.
      assert (count' = totalItems) as -> by congruence.
      destruct (fetch_outcome_stable _ _ _ _ _ _ _ _ _ _ _ _ _
                  Hw Hcol Hcombine Hcol' Hcombine') as [_ Hsame].
      rewrite (CompareAndSync_Permutation caseRanges repo _ _ Hsame) in Hsync'.
      unfold len. rewrite (Permutation_length Hsame). congruence.
  - destruct (gathered_live _ _ _ _ _ _ _ Hcol)
      as [([=] & _)|(_ & _ & [fuel Hsent] & _)].
    exists sessionID, fuel, sent. split; [done|]. split; [done|]. split.
    + unfold len. by rewrite (Permutation_length Hpages).
    + by rewrite <- (CompareAndSync_Permutation caseRanges repo _ _ Hpages).
Qed.

(** X27. An empty remote collection is a successful run: when the
    request is authorized, login succeeds, the remote count is zero or
    below and the store can be read, Handler has a run, and every run
    answers 200 with itemsFetched 0 and an all-zero result, after exactly
    four calls: login, the count, the read of the store, logout.  No page
    is requested. *)
Theorem X27_empty_remote_collection
        (sessionID : gostring) (count : Z) (db : list Product) :
  authHeader = str "Bearer " ++ CRONSecret ->
  login api = Ok sessionID ->
  getItemCount api sessionID = Ok count ->
  count <= 0 ->
  GetAllProducts repo = Ok db ->
  let resp :=
    jsonOK (str "Successfully synchronized data from external API")
           count 0 (mkSyncResult 0 0 0 []) in
  let calls :=
    [callLogin; callGetItemCount sessionID;
     callGetAllProducts; callLogout sessionID] in
  Handler caseRanges CRONSecret api repo authHeader resp calls
  /\ forall resp' calls',
      Handler caseRanges CRONSecret api repo authHeader resp' calls' ->
      resp' = resp /\ calls' = calls.
Proof.
  intros Hhdr Hlogin Hcount Hle Hdb resp calls.
  apply authorized_spec in Hhdr.
  assert (Hsync : CompareAndSync caseRanges repo []
                  = Ok (mkSyncResult 0 0 0 [])).
  { unfold CompareAndSync. by rewrite Hdb. }
  split.
  - exists ctxLive.
    apply (Handler_ok ctxLive caseRanges CRONSecret api repo authHeader
                      sessionID count [] [] [] []); try done.
    apply (gathered_uncancelled _ _ 1); [lia|done| |done|done].
    cbn [sendJobs].
    by replace (0 <? count) with false by (symmetry; apply Z.ltb_ge; lia).
  - intros resp' calls' [ctx' Hrun'].
    inversion Hrun'
      as [Hauth'
         |err' Hauth' Hlogin'
         |sid' err' Hauth' Hlogin' Hcount'
         |sid' count' sent' fetched' allResults' allItems' err'
            Hauth' Hlogin' Hcount' Hcol' Hcombine'
         |sid' count' sent' fetched' allResults' allItems' err'
            Hauth' Hlogin' Hcount' Hcol' Hcombine' Hsync'
         |sid' count' sent' fetched' allResults' allItems' sr'
            Hauth' Hlogin' Hcount' Hcol' Hcombine' Hsync'];
      subst; try congruence.
    + exfalso.
      assert (sid' = sessionID) as -> by congruence.
      assert (count' = count) as -> by congruence.
      destruct (gathered_nothing _ _ _ _ _ _ _ _ Hle Hcol')
        as (-> & -> & ->).
      discriminate.
    + exfalso.
      assert (sid' = sessionID) as -> by congruence.
      assert (count' = count) as -> by congruence.
      destruct (gathered_nothing _ _ _ _ _ _ _ _ Hle Hcol')
        as (-> & -> & ->).
      inversion Hcombine'; subst. congruence.
    + assert (sid' = sessionID) as -> by congruence.
      assert (count' = count) as -> by congruence.
      destruct (gathered_nothing _ _ _ _ _ _ _ _ Hle Hcol')
        as (-> & -> & ->).
      inversion Hcombine'; subst.
      assert (sr' = mkSyncResult 0 0 0 []) as -> by congruence.
      done.
Qed.

End Runs.

End HandlerExtras.

(** * Instances of the further properties *)

Lemma X1_normalizeTitle_ignores_outer_space_witness :
  Forall (fun r => unicode.IsSpace r = true) (str "  ")
  /\ Forall (fun r => unicode.IsSpace r = true) [9; 10]
  /\ normalizeTitle noCaseRanges (str "  " ++ str "Product A" ++ [9; 10])
     = normalizeTitle noCaseRanges (str "Product A").
Proof.
  assert (H1 : Forall (fun r => unicode.IsSpace r = true) (str "  "))
    by (repeat constructor).
  assert (H2 : Forall (fun r => unicode.IsSpace r = true) [9; 10])
    by (repeat constructor).
  split; [exact H1|]. split; [exact H2|].
  exact (X1_normalizeTitle_ignores_outer_space
           noCaseRanges (str "  ") (str "Product A") [9; 10] H1 H2).
Defined.

Lemma X2_normalizeTitle_case_insensitive_witness :
  (forall r, unicode.MaxLatin1 < r ->
             unicode.IsSpace (noCaseRanges r) = unicode.IsSpace r)
  /\ strings.ToLower noCaseRanges (str "PRODUCT a")
     = strings.ToLower noCaseRanges (str "Product A")
  /\ normalizeTitle noCaseRanges (str "PRODUCT a")
     = normalizeTitle noCaseRanges (str "Product A")
  /\ normalizeTitle noCaseRanges (str "PRODUCT a")
     = strings.TrimSpace (strings.ToLower noCaseRanges (str "PRODUCT a")).
Proof.
  assert (H1 : forall r, unicode.MaxLatin1 < r ->
                 unicode.IsSpace (noCaseRanges r) = unicode.IsSpace r)
    by reflexivity.
  assert (H2 : strings.ToLower noCaseRanges (str "PRODUCT a")
               = strings.ToLower noCaseRanges (str "Product A"))
    by reflexivity.
  split; [exact H1|]. split; [exact H2|].
  exact (X2_normalizeTitle_case_insensitive
           noCaseRanges H1 (str "PRODUCT a") (str "Product A") H2).
Defined.

Lemma X6_update_batch_entries_witness :
  let u := mkUpdate 1 (str "Product A") (str "product-a") in
  let db := map ProductRepository.scan storeOldHandle in
  u ∈ itemsToUpdate (classifyAll noCaseRanges db remoteAB)
  /\ uTitle u <> [] /\ uHandle u = generateHandle noCaseRanges (uTitle u)
  /\ exists p,
      p ∈ db /\ ID p = uID u
      /\ productKey noCaseRanges p = normalizeTitle noCaseRanges (uTitle u)
      /\ (Title p <> uTitle u \/ Handle p <> uHandle u).
Proof.
  intros u db.
  assert (H1 : u ∈ itemsToUpdate (classifyAll noCaseRanges db remoteAB))
    by (vm_compute; apply list_elem_of_here).
  split; [exact H1|].
  exact (X6_update_batch_entries noCaseRanges db remoteAB u H1).
Defined.

Lemma X7_every_record_accounted_witness :
  let items := remoteAB ++ [named []] in
  GetAllProducts storeOldHandle
  = Ok (map ProductRepository.scan storeOldHandle)
  /\ exists r creates updates,
      CompareAndSync noCaseRanges storeOldHandle items = Ok r
      /\ syncBatches noCaseRanges storeOldHandle items = Ok (creates, updates)
      /\ Created r = len creates
      /\ 0 <= Unchanged r
      /\ Errors r = replicate (Z.to_nat (len items - validCount items))
                              invalidItemName
      /\ len items = len creates + len updates + Unchanged r + len (Errors r).
Proof.
  intros items.
  assert (H1 : GetAllProducts storeOldHandle
               = Ok (map ProductRepository.scan storeOldHandle))
    by reflexivity.
  split; [exact H1|].
  exact (X7_every_record_accounted noCaseRanges storeOldHandle _ items H1).
Defined.

Lemma X8_only_ItemName_is_read_witness :
  let items := [named (str "Product B")] in
  let items' := [<[str "ItemCode" := VString (str "B-1")]> (named (str "Product B"))] in
  Forall2 (fun a b => a !! str "ItemName" = b !! str "ItemName") items items'
  /\ CompareAndSync noCaseRanges storeOldHandle items
     = CompareAndSync noCaseRanges storeOldHandle items'
  /\ syncBatches noCaseRanges storeOldHandle items
     = syncBatches noCaseRanges storeOldHandle items'.
Proof.
  intros items items'.
  assert (H1 : Forall2 (fun a b => a !! str "ItemName" = b !! str "ItemName")
                       items items')
    by (repeat constructor).
  split; [exact H1|].
  exact (X8_only_ItemName_is_read noCaseRanges storeOldHandle items items' H1).
Defined.

Lemma X9_order_of_input_irrelevant_witness :
  let items' := [named (str "Product B"); named (str "Product A")] in
  GetAllProducts storeOldHandle
  = Ok (map ProductRepository.scan storeOldHandle)
  /\ remoteAB ≡ₚ items'
  /\ CompareAndSync noCaseRanges storeOldHandle remoteAB
     = CompareAndSync noCaseRanges storeOldHandle items'
  /\ exists creates updates creates' updates',
      syncBatches noCaseRanges storeOldHandle remoteAB = Ok (creates, updates)
      /\ syncBatches noCaseRanges storeOldHandle items'
         = Ok (creates', updates')
      /\ creates ≡ₚ creates' /\ updates ≡ₚ updates'.
Proof.
  intros items'.
  assert (H1 : GetAllProducts storeOldHandle
               = Ok (map ProductRepository.scan storeOldHandle))
    by reflexivity.
  assert (H2 : remoteAB ≡ₚ items') by apply perm_swap.
  split; [exact H1|]. split; [exact H2|].
  exact (X9_order_of_input_irrelevant
           noCaseRanges storeOldHandle _ remoteAB items' H1 H2).
Defined.

Lemma X10_empty_store_creates_all_witness :
  GetAllProducts ([] : Table) = Ok []
  /\ syncBatches noCaseRanges ([] : Table) remoteAB
     = Ok (map (createOf noCaseRanges) (List.filter validItem remoteAB), [])
  /\ exists r,
      CompareAndSync noCaseRanges ([] : Table) remoteAB = Ok r
      /\ Created r = validCount remoteAB /\ Updated r = 0 /\ Unchanged r = 0.
Proof.
  assert (H1 : GetAllProducts ([] : Table) = Ok []) by reflexivity.
  split; [exact H1|].
  exact (X10_empty_store_creates_all noCaseRanges ([] : Table) remoteAB H1).
Defined.

Lemma X11_create_batch_appends_witness :
  ProductRepository.CreateProductsBatch storeOldHandle createsCollide
  = Ok (storeOldHandle ++ [mkRow 2 (str "A B") (Some (str "a-b"))])
  /\ (exists new,
        storeOldHandle ++ [mkRow 2 (str "A B") (Some (str "a-b"))] = storeOldHandle ++ new
        /\ Forall (fun r => exists c, c ∈ createsCollide
                                      /\ row_title r = cTitle c
                                      /\ row_handle r = Some (cHandle c)) new)
  /\ (NoDup (map row_id storeOldHandle) ->
      NoDup (map row_id (storeOldHandle ++ [mkRow 2 (str "A B") (Some (str "a-b"))]))).
Proof.
  assert (H1 : ProductRepository.CreateProductsBatch
                 storeOldHandle createsCollide
               = Ok (storeOldHandle ++ [mkRow 2 (str "A B") (Some (str "a-b"))]))
    by reflexivity.
  split; [exact H1|].
  exact (X11_create_batch_appends storeOldHandle _ createsCollide H1).
Defined.

Lemma X12_create_batch_idempotent_witness :
  ProductRepository.CreateProductsBatch [] createsCollide = Ok tableCollide
  /\ (forall c, c ∈ createsCollide ->
        ProductRepository.handleTaken tableCollide (cHandle c) = true)
  /\ ProductRepository.CreateProductsBatch tableCollide createsCollide
     = Ok tableCollide.
Proof.
  assert (H1 : ProductRepository.CreateProductsBatch [] createsCollide
               = Ok tableCollide)
    by reflexivity.
  split; [exact H1|].
  exact (X12_create_batch_idempotent [] tableCollide createsCollide H1).
Defined.

Lemma X13_create_batch_keeps_handles_unique_witness :
  NoDup (omap row_handle ([] : Table))
  /\ ProductRepository.CreateProductsBatch [] createsCollide = Ok tableCollide
  /\ NoDup (omap row_handle tableCollide).
Proof.
  assert (H1 : NoDup (omap row_handle ([] : Table))) by constructor.
  assert (H2 : ProductRepository.CreateProductsBatch [] createsCollide
               = Ok tableCollide)
    by reflexivity.
  split; [exact H1|]. split; [exact H2|].
  exact (X13_create_batch_keeps_handles_unique
           [] tableCollide createsCollide H1 H2).
Defined.

Lemma X14_create_batch_exact_when_fresh_witness :
  let batch := [mkCreate (str "Product B") (str "product-b")] in
  let db' := storeOldHandle
               ++ [mkRow 2 (str "Product B") (Some (str "product-b"))] in
  NoDup (map cHandle batch)
  /\ (forall c, c ∈ batch ->
        ProductRepository.handleTaken storeOldHandle (cHandle c) = false)
  /\ ProductRepository.CreateProductsBatch storeOldHandle batch = Ok db'
  /\ len db' = len storeOldHandle + len batch.
Proof.
  intros batch db'.
  assert (H1 : NoDup (map cHandle batch))
    by (apply NoDup_singleton).
  assert (H2 : forall c, c ∈ batch ->
                 ProductRepository.handleTaken storeOldHandle (cHandle c)
                 = false).
  { intros c Hc. apply list_elem_of_singleton in Hc. rewrite Hc.
    reflexivity. }
  assert (H3 : ProductRepository.CreateProductsBatch storeOldHandle batch
               = Ok db')
    by reflexivity.
  split; [exact H1|]. split; [exact H2|]. split; [exact H3|].
  exact (X14_create_batch_exact_when_fresh storeOldHandle db' batch H1 H2 H3).
Defined.


Lemma X16_update_batch_last_entry_wins_witness :
  let u := mkUpdate 1 (str "Product A") (str "product-a") in
  let before := [mkUpdate 1 (str "Draft") (str "draft")] in
  let after := [mkUpdate 7 (str "Other") (str "other")] in
  let r := mkRow 1 (str "Product A") (Some (str "old-handle-a")) in
  let db' := [mkRow 1 (str "Product A") (Some (str "product-a"))] in
  ProductRepository.UpdateProductsBatch storeOldHandle (before ++ u :: after)
  = Ok db'
  /\ storeOldHandle !! 0%nat = Some r
  /\ row_id r = uID u
  /\ (forall u', u' ∈ after -> uID u' <> uID u)
  /\ db' !! 0%nat = Some (mkRow (uID u) (uTitle u) (Some (uHandle u))).
Proof.
  intros u before after r db'.
  assert (H1 : ProductRepository.UpdateProductsBatch
                 storeOldHandle (before ++ u :: after) = Ok db')
    by reflexivity.
  assert (H2 : storeOldHandle !! 0%nat = Some r) by reflexivity.
  assert (H3 : row_id r = uID u) by reflexivity.
  assert (H4 : forall u', u' ∈ after -> uID u' <> uID u).
  { intros u' Hu'. apply list_elem_of_singleton in Hu'. rewrite Hu'.
    discriminate. }
  split; [exact H1|]. split; [exact H2|]. split; [exact H3|].
  split; [exact H4|].
  exact (X16_update_batch_last_entry_wins
           storeOldHandle db' before after u 0%nat r H1 H2 H3 H4).
Defined.

Lemma flaky_gathered :
  handler.gathered flakyPage handler.ctxLive 60 20 2
    [handler.mkPageJob 0 20; handler.mkPageJob 20 20; handler.mkPageJob 40 20]
    [handler.mkPageJob 20 20; handler.mkPageJob 0 20; handler.mkPageJob 40 20]
    flakyResults.
Proof.
  apply (gathered_uncancelled flakyPage handler.ctxLive 4%nat);
    [lia|reflexivity|reflexivity|apply perm_swap|apply perm_swap].
Defined.

Lemma X19_fetch_success_returns_all_pages_witness :
  let sent := [handler.mkPageJob 0 20; handler.mkPageJob 20 20;
               handler.mkPageJob 40 20] in
  let fetched := [handler.mkPageJob 20 20; handler.mkPageJob 0 20;
                  handler.mkPageJob 40 20] in
  handler.gathered flakyPage handler.ctxLive 60 20 2
                   sent fetched flakyResults
  /\ exists got,
      got ⊆+ sent
      /\ (handler.ctxLive = handler.ctxLive -> 1 <= 2 -> got ≡ₚ sent)
      /\ (snd (handler.combine flakyResults) = None
          <-> forall job, job ∈ got ->
                exists items,
                  flakyPage (handler.Top job) (handler.Skip job) = Ok items)
      /\ (snd (handler.combine flakyResults) = None ->
          fst (handler.combine flakyResults)
          = concat (map handler.Items flakyResults)
          /\ fst (handler.combine flakyResults)
             ≡ₚ concat (map (fun job =>
                               handler.Items (handler.runJob flakyPage job))
                            got)).
Proof.
  intros sent fetched. split; [exact flaky_gathered|].
  exact (X19_fetch_success_returns_all_pages
           flakyPage handler.ctxLive 60 20 2 sent fetched flakyResults
           flaky_gathered).
Defined.

Lemma X20_pages_tile_the_range_witness :
  let jobs := [handler.mkPageJob 0 20; handler.mkPageJob 20 20;
               handler.mkPageJob 40 20] in
  0 < 20
  /\ 20 * handler.pageCount 60 20 <= handler.maxInt
  /\ handler.sendJobs 4 None 0 60 20 = Some jobs
  /\ 0 <= 45 < 60
  /\ exists job,
      job ∈ jobs
      /\ handler.Skip job <= 45 < handler.Skip job + handler.Top job
      /\ forall job', job' ∈ jobs ->
           handler.Skip job' <= 45 < handler.Skip job' + handler.Top job' ->
           job' = job.
Proof.
  intros jobs.
  assert (H1 : 0 < 20) by lia.
  assert (H2 : 20 * handler.pageCount 60 20 <= handler.maxInt)
    by (vm_compute; discriminate).
  assert (H3 : handler.sendJobs 4 None 0 60 20 = Some jobs) by reflexivity.
  assert (H4 : 0 <= 45 < 60) by lia.
  split; [exact H1|]. split; [exact H2|]. split; [exact H3|].
  split; [exact H4|].
  exact (X20_pages_tile_the_range 60 20 4%nat jobs 45 H1 H2 H3 H4).
Defined.

Lemma X21_nothing_to_fetch_witness :
  0 <= 0 /\ 0 <= 2 /\ handler.channelsMade 2 = true
  /\ handler.gathered flakyPage handler.ctxDone 0 20 2 [] [] []
  /\ forall ret,
      handler.fetchAllItemsConcurrently flakyPage 0 20 2 ret ->
      ret = ([], None).
Proof.
  assert (H1 : 0 <= 0) by lia.
  assert (H2 : 0 <= 2) by lia.
  assert (H3 : handler.channelsMade 2 = true) by reflexivity.
  split; [exact H1|]. split; [exact H2|]. split; [exact H3|].
  exact (X21_nothing_to_fetch flakyPage handler.ctxDone 0 20 2 H1 H2 H3).
Defined.

Lemma X22_zero_page_size_never_returns_witness :
  0 < 5
  /\ (forall fuel, handler.sendJobs fuel None 0 5 0 = None)
  /\ (1 <= 2 ->
      forall ret,
        ~ handler.fetchAllItemsConcurrentlyIn flakyPage handler.ctxLive
            5 0 2 ret)
  /\ (2 = 0 ->
      forall ctx,
        handler.fetchAllItemsConcurrentlyIn flakyPage ctx 5 0 2 ([], None)
        /\ forall ret,
            handler.fetchAllItemsConcurrentlyIn flakyPage ctx 5 0 2 ret ->
            ret = ([], None))
  /\ (forall ctx sent fetched allResults,
         handler.gathered flakyPage ctx 5 0 2 sent fetched allResults ->
         Forall (fun job => job = handler.mkPageJob 0 0) sent).
Proof.
  assert (H1 : 0 < 5) by lia.
  split; [exact H1|].
  exact (X22_zero_page_size_never_returns flakyPage 5 2 H1).
Defined.

(** A run of Handler against [serviceFlaky]: the page at offset 20 fails,
    the answer is 500, and the session is closed. *)
Lemma flaky_run :
  handler.Handler noCaseRanges (str "s3cret") serviceFlaky storeOldHandle
    (str "Bearer s3cret")
    (handler.httpError
       (str "Failed to fetch items: error fetching page at skip 20: fetch failed with status 500")
       500)
    callsFlaky.
Proof.
  exists handler.ctxLive.
  exact (handler.Handler_fetch_failed handler.ctxLive
           noCaseRanges (str "s3cret") serviceFlaky storeOldHandle
           (str "Bearer s3cret") (str "session-1") 60 _ _ flakyResults []
           (errFetchPage 20 (errorString (str "fetch failed with status 500")))
           eq_refl eq_refl eq_refl flaky_gathered eq_refl).
Defined.

(** A run of Handler against [serviceAB] and [storeOldHandle], the
    context of the request being live. *)
Lemma AB_run :
  handler.HandlerIn handler.ctxLive
    noCaseRanges (str "s3cret") serviceAB storeOldHandle
    (str "Bearer s3cret")
    (handler.jsonOK (str "Successfully synchronized data from external API")
                    2 2 (mkSyncResult 1 0 0 []))
    callsAB.
Proof.
  assert (Hcol : handler.gathered
                   (handler.fetchItemsPage serviceAB (str "session-1"))
                   handler.ctxLive 2 20 2
                   [handler.mkPageJob 0 20] [handler.mkPageJob 0 20]
                   [handler.mkPageResult remoteAB 0 None]).
  { apply (gathered_uncancelled _ handler.ctxLive 2%nat);
      [lia|reflexivity|reflexivity|reflexivity|reflexivity]. }
  exact (handler.Handler_ok handler.ctxLive
           noCaseRanges (str "s3cret") serviceAB storeOldHandle
           (str "Bearer s3cret") (str "session-1") 2 _ _ _ remoteAB
           (mkSyncResult 1 0 0 [])
           eq_refl eq_refl eq_refl Hcol eq_refl eq_refl).
Defined.

Lemma X24_logout_follows_login_witness :
  handler.Handler noCaseRanges (str "s3cret") serviceFlaky storeOldHandle
    (str "Bearer s3cret")
    (handler.httpError
       (str "Failed to fetch items: error fetching page at skip 20: fetch failed with status 500")
       500)
    callsFlaky
  /\ ((callsFlaky = []
       /\ handler.authorized (str "Bearer s3cret") (str "s3cret") = false)
      \/ (callsFlaky = [handler.callLogin]
          /\ exists err, handler.login serviceFlaky = Fail err)
      \/ exists sessionID between,
          handler.login serviceFlaky = Ok sessionID
          /\ callsFlaky
             = handler.callLogin :: between ++ [handler.callLogout sessionID]
          /\ (handler.callLogin ∉ between)
          /\ forall s, handler.callLogout s ∉ between).
Proof.
  split; [exact flaky_run|].
  exact (X24_logout_follows_login
           noCaseRanges (str "s3cret") serviceFlaky storeOldHandle
           (str "Bearer s3cret") _ _ flaky_run).
Defined.

Lemma X25_handler_status_witness :
  let resp :=
    handler.jsonOK (str "Successfully synchronized data from external API")
                   2 2 (mkSyncResult 1 0 0 []) in
  handler.HandlerIn handler.ctxLive
    noCaseRanges (str "s3cret") serviceAB storeOldHandle
    (str "Bearer s3cret") resp callsAB
  /\ (handler.statusCode resp = 401 \/ handler.statusCode resp = 500
      \/ handler.statusCode resp = 200)
  /\ (handler.statusCode resp = 401
      <-> str "Bearer s3cret" <> str "Bearer " ++ str "s3cret")
  /\ (handler.statusCode resp = 401 -> callsAB = [])
  /\ (handler.callGetAllProducts ∈ callsAB ->
      exists sessionID count sent fetched allResults,
        handler.login serviceAB = Ok sessionID
        /\ handler.getItemCount serviceAB sessionID = Ok count
        /\ handler.gathered (handler.fetchItemsPage serviceAB sessionID)
                            handler.ctxLive count 20 2
                            sent fetched allResults
        /\ Forall (fun r => handler.Err r = None) allResults
        /\ (handler.ctxLive = handler.ctxLive ->
            (exists fuel,
                handler.sendJobs fuel None 0 count 20 = Some sent)
            /\ forall job, job ∈ sent ->
                 exists items,
                   handler.fetchItemsPage serviceAB sessionID
                     (handler.Top job) (handler.Skip job)
                   = Ok items))
  /\ (forall message totalItems itemsFetched syncResult,
        resp = handler.jsonOK message totalItems itemsFetched syncResult ->
        exists sessionID,
          handler.login serviceAB = Ok sessionID
          /\ handler.getItemCount serviceAB sessionID = Ok totalItems).
Proof.
  intros resp. split; [exact AB_run|].
  exact (X25_handler_status
           noCaseRanges (str "s3cret") serviceAB storeOldHandle
           (str "Bearer s3cret") handler.ctxLive _ _ AB_run).
Defined.

Lemma X26_success_is_deterministic_witness :
  let resp :=
    handler.jsonOK (str "Successfully synchronized data from external API")
                   2 2 (mkSyncResult 1 0 0 []) in
  handler.HandlerIn handler.ctxLive
    noCaseRanges (str "s3cret") serviceAB storeOldHandle
    (str "Bearer s3cret") resp callsAB
  /\ (forall resp' calls',
        handler.HandlerIn handler.ctxLive
          noCaseRanges (str "s3cret") serviceAB storeOldHandle
          (str "Bearer s3cret") resp' calls' ->
        resp' = resp)
  /\ exists sessionID fuel jobs,
      handler.login serviceAB = Ok sessionID
      /\ handler.sendJobs fuel None 0 2 20 = Some jobs
      /\ 2 = len (concat (map (fun job =>
                                 handler.Items
                                   (handler.runJob
                                      (handler.fetchItemsPage
                                         serviceAB sessionID) job))
                              jobs))
      /\ CompareAndSync noCaseRanges storeOldHandle
           (concat (map (fun job =>
                           handler.Items
                             (handler.runJob
                                (handler.fetchItemsPage serviceAB sessionID)
                                job))
                        jobs))
         = Ok (mkSyncResult 1 0 0 []).
Proof.
  intros resp. split; [exact AB_run|].
  exact (X26_success_is_deterministic
           noCaseRanges (str "s3cret") serviceAB storeOldHandle
           (str "Bearer s3cret") _ _ _ _ _ AB_run).
Defined.

Lemma X27_empty_remote_collection_witness :
  let resp :=
    handler.jsonOK (str "Successfully synchronized data from external API")
                   0 0 (mkSyncResult 0 0 0 []) in
  let calls :=
    [handler.callLogin; handler.callGetItemCount (str "session-1");
     handler.callGetAllProducts; handler.callLogout (str "session-1")] in
  str "Bearer s3cret" = str "Bearer " ++ str "s3cret"
  /\ handler.login serviceEmpty = Ok (str "session-1")
  /\ handler.getItemCount serviceEmpty (str "session-1") = Ok 0
  /\ 0 <= 0
  /\ GetAllProducts storeOldHandle
     = Ok (map ProductRepository.scan storeOldHandle)
  /\ handler.Handler noCaseRanges (str "s3cret") serviceEmpty storeOldHandle
       (str "Bearer s3cret") resp calls
  /\ forall resp' calls',
      handler.Handler noCaseRanges (str "s3cret") serviceEmpty storeOldHandle
        (str "Bearer s3cret") resp' calls' ->
      resp' = resp /\ calls' = calls.
Proof.
  intros resp calls.
  assert (H1 : str "Bearer s3cret" = str "Bearer " ++ str "s3cret")
    by reflexivity.
  assert (H2 : handler.login serviceEmpty = Ok (str "session-1"))
    by reflexivity.
  assert (H3 : handler.getItemCount serviceEmpty (str "session-1") = Ok 0)
    by reflexivity.
  assert (H4 : 0 <= 0) by lia.
  assert (H5 : GetAllProducts storeOldHandle
               = Ok (map ProductRepository.scan storeOldHandle))
    by reflexivity.
  split; [exact H1|]. split; [exact H2|]. split; [exact H3|].
  split; [exact H4|]. split; [exact H5|].
  exact (X27_empty_remote_collection
           noCaseRanges (str "s3cret") serviceEmpty storeOldHandle
           (str "Bearer s3cret") (str "session-1") 0 _ H1 H2 H3 H4 H5).
Defined.
